(** * async-class-co: the member classifier and the co adapter

    A shallow embedding of [index.js].  The module rewrites the callable
    members of a class (its static surface, the class object itself, and its
    instance surface, [klass.prototype]) so that the selected ones are
    replaced by [co.wrap] adapters.

    The file has three layers:
    - [Js]: the part of the JavaScript run time the source relies on
      (values, property tables with data and accessor descriptors, a store
      of objects addressed by identity, truthiness, [typeof], [endsWith],
      [indexOf], property read and strict-mode assignment);
    - [Co]: the [co] package that [index.js] requires on its second line
      ([co.wrap] and the promise driver behind it);
    - [AsyncClass]: the functions of [index.js], one definition per source
      function, written in a state-and-exception monad over the store. *)

From stdpp Require Import base list strings pretty.
From Stdlib Require Import ZArith Lia.

Local Open Scope string_scope.
Local Open Scope list_scope.
Local Open Scope Z_scope.

(* ===================================================================== *)
(** ** The JavaScript run time *)
(* ===================================================================== *)

Module Js.

(** Objects have identity: a value refers to one through its address in the
    store. *)
Abbreviation loc := nat (only parsing).

(** First-order values.  Objects and functions are references; an [Error]
    instance is carried by its name and message. *)
Inductive jsval :=
| VUndefined
| VNull
| VBool (b : bool)
| VNum (n : Z)
| VNaN
| VStr (s : string)
| VError (name message : string)
| VRef (l : loc).

(** The optional [methodNames] argument of the public functions: any value,
    or an array of values.  By convention a [VRef] passed here is an object
    that is not an array. *)
Inductive argument :=
| AVal (v : jsval)
| AArray (xs : list jsval).

(** What a (synchronous) evaluation produces: a value or a thrown one. *)
Inductive res (A : Type) :=
| Ret (a : A)
| Thrown (e : jsval).
Arguments Ret {A} a.
Arguments Thrown {A} e.

(** *** Promises, generators and calls *)

(** The state a promise finally reaches ([Pending]: it never settles). *)
Inductive settle :=
| Fulfilled (v : jsval)
| Rejected (e : jsval)
| Pending.

(** A value handed to [resolve] or returned by a body: a plain value or a
    promise (which [resolve] adopts). *)
Inductive retval :=
| Plain (v : jsval)
| Thenable (p : settle).

(** How a suspended generator is resumed: [gen.next(v)] or [gen.throw(e)]. *)
Inductive resume :=
| RNext (v : jsval)
| RThrow (e : jsval).

(** What a generator yields, seen through co's [toPromise]: something that
    is or becomes a promise (a promise, thunk, generator, array or plain
    object), or a value [toPromise] leaves alone. *)
Inductive yielded :=
| YPromise (p : settle)
| YOther (v : jsval).

(** A running generator, as the result of the call to [next]/[throw] that
    is being answered: it returns ([done: true]), raises, or yields and
    waits to be resumed. *)
Inductive gen :=
| GReturn (r : retval)
| GRaise (e : jsval)
| GYield (y : yielded) (k : resume -> gen).

(** What a call returns: a value that is not a function and has no [next]
    method, a function, or an object with a [next] method.  A function [f]
    comes with [applied], the outcome of [f.apply(this)] on the receiver
    of the call that returned it: what [co] evaluates when it is handed a
    function. *)
Inductive returned :=
| RVal (r : retval)
| RFun (f : jsval) (applied : completion)
| RGen (g : gen)

with completion :=
| Normal (r : returned)
| Abrupt (e : jsval).

(** The [[Call]] side of a function object.  [ctor_name] is what
    [f.constructor.name] reads: ["Function"], ["GeneratorFunction"], ...
    [call this args] is the outcome of [f.apply(this, args)]; calling a
    generator function only creates the generator, its body runs under
    [next]. *)
Record code := {
  ctor_name : string;
  call : jsval -> list jsval -> completion
}.

(** *** Objects and the store *)

(** A property descriptor: a data property, or an accessor with its
    optional getter (a read of the receiver) and the presence of a setter.
    Data properties are writable, as class bodies and assignments create
    them. *)
Inductive property :=
| Data (v : jsval)
| Accessor (getter : option (jsval -> res jsval)) (has_setter : bool).

(** [own]: the own properties in the order [Object.getOwnPropertyNames]
    reports them; [proto]: the object of the store inherited from, [None]
    when there is none between the object and [Object.prototype] (or
    [Function.prototype], for a function); [callable]: present for function
    objects. *)
Record object := {
  own : list (string * property);
  proto : option loc;
  callable : option code
}.

Abbreviation heap := (list object) (only parsing).

(** *** The state-and-exception monad *)

Definition M (A : Type) := heap -> res A * heap.

Definition ret {A} (a : A) : M A := fun h => (Ret a, h).
Definition throw {A} (e : jsval) : M A := fun h => (Thrown e, h).
Definition bind {A B} (m : M A) (k : A -> M B) : M B :=
  fun h => match m h with
           | (Ret a, h') => k a h'
           | (Thrown e, h') => (Thrown e, h')
           end.
Definition lift {A} (r : res A) : M A := fun h => (r, h).
Definition gets {A} (f : heap -> A) : M A := fun h => (Ret (f h), h).

Declare Scope js_scope.
Delimit Scope js_scope with js.
Notation "x <- m ;; k" := (bind m (fun x => k))
  (at level 100, m at next level, right associativity) : js_scope.
Notation "m ;;; k" := (bind m (fun _ => k))
  (at level 100, right associativity) : js_scope.

(** [xs.forEach(f)] *)
Fixpoint forEach {A} (xs : list A) (f : A -> M unit) : M unit :=
  match xs with
  | [] => ret tt
  | x :: xs' => bind (f x) (fun _ => forEach xs' f)
  end.

(** *** Primitive operations *)

Definition TypeError (message : string) : jsval := VError "TypeError" message.

(** [ToBoolean] *)
Definition truthy (v : jsval) : bool :=
  match v with
  | VUndefined | VNull | VNaN => false
  | VBool b => b
  | VNum n => negb (n =? 0)
  | VStr s => negb (String.eqb s EmptyString)
  | VError _ _ | VRef _ => true
  end.

Definition truthy_arg (a : argument) : bool :=
  match a with
  | AVal v => truthy v
  | AArray _ => true
  end.

(** [a instanceof Array] *)
Definition instanceof_Array (a : argument) : bool :=
  match a with
  | AVal _ => false
  | AArray _ => true
  end.

(** [key.endsWith(search)]: the last [search.length] characters of [key]
    are compared with [search]. *)
Definition endsWith (key search : string) : bool :=
  let len := String.length key in
  let searchLength := String.length search in
  if (searchLength <=? len)%nat
  then String.eqb (String.substring (len - searchLength)%nat searchLength key) search
  else false.

(** [x === key] for a string [key] *)
Definition strict_equals_str (x : jsval) (key : string) : bool :=
  match x with
  | VStr s => String.eqb s key
  | _ => false
  end.

Fixpoint array_indexOf (xs : list jsval) (key : string) (i : Z) : Z :=
  match xs with
  | [] => -1
  | x :: xs' => if strict_equals_str x key then i else array_indexOf xs' key (i + 1)
  end.

(** [methodNames.indexOf(key)]: the array search, the substring search of a
    string, and no such method on the other values. *)
Definition indexOf (a : argument) (key : string) : res Z :=
  match a with
  | AArray xs => Ret (array_indexOf xs key 0)
  | AVal (VStr s) =>
      Ret (match String.index 0 key s with
           | Some n => Z.of_nat n
           | None => -1
           end)
  | AVal _ => Thrown (TypeError "methodNames.indexOf is not a function")
  end.

Fixpoint lookup_own (key : string) (ps : list (string * property)) : option property :=
  match ps with
  | [] => None
  | (k, p) :: ps' => if String.eqb k key then Some p else lookup_own key ps'
  end.

(** Overwrite the own property [key] in place, or add it at the end. *)
Fixpoint assign_own (key : string) (v : jsval) (ps : list (string * property))
  : list (string * property) :=
  match ps with
  | [] => [(key, Data v)]
  | (k, p) :: ps' =>
      if String.eqb k key then (k, Data v) :: ps'
      else (k, p) :: assign_own key v ps'
  end.

Definition code_of (h : heap) (v : jsval) : option code :=
  match v with
  | VRef l => match h !! l with
              | Some o => callable o
              | None => None
              end
  | _ => None
  end.

(** [typeof v] *)
Definition typeof (h : heap) (v : jsval) : string :=
  match v with
  | VUndefined => "undefined"
  | VNull => "object"
  | VBool _ => "boolean"
  | VNum _ | VNaN => "number"
  | VStr _ => "string"
  | VError _ _ => "object"
  | VRef _ => match code_of h v with
              | Some _ => "function"
              | None => "object"
              end
  end.

(** [v.constructor.name] *)
Definition constructor_name (v : jsval) : M string := fun h =>
  match v with
  | VUndefined | VNull =>
      (Thrown (TypeError "Cannot read property 'constructor' of undefined"), h)
  | VBool _ => (Ret "Boolean", h)
  | VNum _ | VNaN => (Ret "Number", h)
  | VStr _ => (Ret "String", h)
  | VError name _ => (Ret name, h)
  | VRef _ => match code_of h v with
              | Some c => (Ret (ctor_name c), h)
              | None => (Ret "Object", h)
              end
  end.

(** The read [o[key]] on the object at [l]: an own property, else the
    inherited one. *)
Fixpoint get_from (h : heap) (fuel : nat) (l : loc) (receiver : jsval) (key : string)
  : res jsval :=
  match h !! l with
  | None => Ret VUndefined
  | Some o =>
      match lookup_own key (own o) with
      | Some (Data v) => Ret v
      | Some (Accessor None _) => Ret VUndefined
      | Some (Accessor (Some getter) _) => getter receiver
      | None =>
          match proto o, fuel with
          | Some p, S fuel' => get_from h fuel' p receiver key
          | _, _ => Ret VUndefined
          end
      end
  end.

(** [target[key]].  The wrapper objects of primitives carry none of the
    keys read by this program. *)
Definition Get (target : jsval) (key : string) : M jsval := fun h =>
  match target with
  | VUndefined | VNull =>
      (Thrown (TypeError "Cannot read property of undefined"), h)
  | VRef l => (get_from h (length h) l target key, h)
  | _ => (Ret VUndefined, h)
  end.

(** The object [o] once [o[key] = v] has been carried out on it, for a key
    that is not an own accessor.  An own data property is overwritten in
    place.  A key the object does not own is looked up along the prototype
    chain, which ends in [Object.prototype]: there [__proto__] is an
    accessor, whose setter makes an object the prototype of the receiver
    ([null] leaves it without one in the store), ignores a primitive value
    and adds no own property.  Every other key the object does not own
    becomes its last own property: the objects between it and
    [Object.prototype] are taken to hold no setter of that name.  The
    values this program assigns are functions. *)
Definition assigned (o : object) (key : string) (v : jsval) : object :=
  match lookup_own key (own o) with
  | Some _ =>
      {| own := assign_own key v (own o); proto := proto o; callable := callable o |}
  | None =>
      if String.eqb key "__proto__"
      then match v with
           | VRef l => {| own := own o; proto := Some l; callable := callable o |}
           | VNull => {| own := own o; proto := None; callable := callable o |}
           | _ => o
           end
      else {| own := assign_own key v (own o); proto := proto o; callable := callable o |}
  end.

(** [target[key] = v] in strict mode. *)
Definition Put (target : jsval) (key : string) (v : jsval) : M unit := fun h =>
  match target with
  | VRef l =>
      match h !! l with
      | None => (Thrown (TypeError "Cannot set property"), h)
      | Some o =>
          match lookup_own key (own o) with
          | Some (Accessor _ false) =>
              (Thrown (TypeError "Cannot set property which has only a getter"), h)
          | Some (Accessor _ true) => (Ret tt, h)
          | _ => (Ret tt, <[l := assigned o key v]> h)
          end
      end
  | _ => (Thrown (TypeError "Cannot create property"), h)
  end.

(** [{}] and function objects are allocated at the next free address. *)
Definition alloc (o : object) : M jsval := fun h =>
  (Ret (VRef (length h)), h ++ [o]).

(** [Object.getOwnPropertyNames(target)].  The wrappers of primitive values
    expose no function-typed property and are listed as empty. *)
Definition getOwnPropertyNames (target : jsval) : M (list string) := fun h =>
  match target with
  | VUndefined | VNull =>
      (Thrown (TypeError "Cannot convert undefined or null to object"), h)
  | VRef l => (Ret (match h !! l with
                    | Some o => map fst (own o)
                    | None => []
                    end), h)
  | _ => (Ret [], h)
  end.

(** [Object.getOwnPropertyDescriptor(target, key)] *)
Definition getOwnPropertyDescriptor (h : heap) (target : jsval) (key : string)
  : option property :=
  match target with
  | VRef l => match h !! l with
              | Some o => lookup_own key (own o)
              | None => None
              end
  | _ => None
  end.

End Js.

(* ===================================================================== *)
(** ** The co package *)
(* ===================================================================== *)

(** [index.js] adapts every selected member with [co.wrap].  The package is
    a dependency of the repository, not part of its sources; this module
    follows the [index.js] of co 4:

<<
    co.wrap = function (fn) {
      createPromise.__generatorFunction__ = fn;
      return createPromise;
      function createPromise() {
        return co.call(this, fn.apply(this, arguments));
      }
    };

    function co(gen) {
      var ctx = this;
      var args = slice.call(arguments, 1);
      return new Promise(function(resolve, reject) {
        if (typeof gen === 'function') gen = gen.apply(ctx, args);
        if (!gen || typeof gen.next !== 'function') return resolve(gen);
        onFulfilled();
        function onFulfilled(res) {
          var ret;
          try { ret = gen.next(res); } catch (e) { return reject(e); }
          next(ret);
        }
        function onRejected(err) {
          var ret;
          try { ret = gen.throw(err); } catch (e) { return reject(e); }
          next(ret);
        }
        function next(ret) {
          if (ret.done) return resolve(ret.value);
          var value = toPromise.call(ctx, ret.value);
          if (value && isPromise(value)) return value.then(onFulfilled, onRejected);
          return onRejected(new TypeError(...));
        }
      });
    }
>>

    Promises are followed to the state they settle in, so a run of the
    driver is the list of calls it makes on the generator and the final
    state of the promise it returned. *)

Module Co.
Import Js.

(** The calls the driver makes on the generator: the first [gen.next()],
    then one resumption per settled promise. *)
Inductive event :=
| Started
| Resumed (r : resume).

(** [resolve(x)]: a promise is adopted, any other value fulfils. *)
Definition resolve (x : retval) : settle :=
  match x with
  | Plain v => Fulfilled v
  | Thenable p => p
  end.

(** [String(v)] *)
Definition to_string (v : jsval) : string :=
  match v with
  | VUndefined => "undefined"
  | VNull => "null"
  | VBool true => "true"
  | VBool false => "false"
  | VNum n => pretty n
  | VNaN => "NaN"
  | VStr s => s
  | VError name message => name +:+ ": " +:+ message
  | VRef _ => "[object Object]"
  end.

Definition quote : string := String (Ascii.ascii_of_nat 34) EmptyString.

Definition yield_error (v : jsval) : jsval :=
  TypeError ("You may only yield a function, promise, generator, array, or object, "
             +:+ "but the following object was passed: "
             +:+ quote +:+ to_string v +:+ quote).

(** [next(ret)] with [onFulfilled] and [onRejected] unfolded: [ret] is what
    the last call on the generator produced.  A raise rejects; [done]
    resolves; a yielded promise is awaited and the generator resumed with
    [gen.next(res)] or [gen.throw(err)]; any other yielded value is
    answered with [gen.throw] of a [TypeError]. *)
Fixpoint next (ret : gen) : list event * settle :=
  match ret with
  | GRaise e => ([], Rejected e)
  | GReturn value => ([], resolve value)
  | GYield (YPromise (Fulfilled res)) k =>
      let '(t, p) := next (k (RNext res)) in (Resumed (RNext res) :: t, p)
  | GYield (YPromise (Rejected err)) k =>
      let '(t, p) := next (k (RThrow err)) in (Resumed (RThrow err) :: t, p)
  | GYield (YPromise Pending) _ => ([], Pending)
  | GYield (YOther v) k =>
      let err := yield_error v in
      let '(t, p) := next (k (RThrow err)) in (Resumed (RThrow err) :: t, p)
  end.

(** The executor of [co] from its second statement on, [gen] being what
    the first one left: without a [next] method it resolves the promise,
    with one it is driven. *)
Definition drive (gen : returned) : list event * settle :=
  match gen with
  | RVal value => ([], resolve value)
  | RFun f _ => ([], Fulfilled f)
  | RGen g => let '(t, p) := next g in (Started :: t, p)
  end.

(** [co.call(ctx, gen)]: the calls made on the generator and the final
    state of the promise returned.  A function is called first, on [ctx]
    and without arguments, inside the executor (the outcome is the
    [applied] it comes with): what it throws rejects the promise and what
    it returns takes the place of [gen]. *)
Definition co (gen : returned) : list event * settle :=
  match gen with
  | RFun _ (Abrupt e) => ([], Rejected e)
  | RFun _ (Normal gen') => drive gen'
  | _ => drive gen
  end.

(** The generator raises [e] on the path the driver takes through it. *)
Inductive raises : gen -> jsval -> Prop :=
| raises_now e : raises (GRaise e) e
| raises_after_value v k e :
    raises (k (RNext v)) e -> raises (GYield (YPromise (Fulfilled v)) k) e
| raises_after_rejection e0 k e :
    raises (k (RThrow e0)) e -> raises (GYield (YPromise (Rejected e0)) k) e
| raises_after_invalid_yield v k e :
    raises (k (RThrow (yield_error v))) e -> raises (GYield (YOther v) k) e.

(** The closure [co.wrap] returns:
    [return co.call(this, fn.apply(this, arguments))].  The argument of
    [co.call] is evaluated first, outside the promise. *)
Definition createPromise (fn : option code) (this : jsval) (args : list jsval)
  : completion :=
  match fn with
  | None => Abrupt (TypeError "fn.apply is not a function")
  | Some c =>
      match call c this args with
      | Abrupt e => Abrupt e
      | Normal gen => Normal (RVal (Thenable (snd (co gen))))
      end
  end.

(** The function object [co.wrap(fn)] creates. *)
Definition adapter (h : heap) (fn : jsval) : object :=
  {| own := [("__generatorFunction__", Data fn)];
     proto := None;
     callable := Some {| ctor_name := "Function";
                         call := createPromise (code_of h fn) |} |}.

Definition wrap (fn : jsval) : M jsval :=
  fun h => alloc (adapter h fn) h.

End Co.

(* ===================================================================== *)
(** ** index.js *)
(* ===================================================================== *)

Module AsyncClass.
Import Js.
Local Open Scope js_scope.

Definition InvalidArgument : jsval :=
  VError "Error" "Optional methodNames should be an array if provided".

Definition validateMethodNames (methodNames : argument) : M unit :=
  if truthy_arg methodNames && negb (instanceof_Array methodNames)
  then throw InvalidArgument
  else ret tt.

(** [!propertyDescriptor.get && !propertyDescriptor.set] *)
Definition no_accessor (p : property) : bool :=
  match p with
  | Data _ => true
  | Accessor getter has_setter => negb (bool_decide (is_Some getter)) && negb has_setter
  end.

(** The first filter of [_actualMethodKeys]. *)
Definition is_plain_property (h : heap) (target : jsval) (key : string) : bool :=
  match getOwnPropertyDescriptor h target key with
  | Some propertyDescriptor => no_accessor propertyDescriptor
  | None => false
  end.

(** The second filter: [typeof target[key] === 'function']. *)
Definition is_function_at (h : heap) (target : jsval) (key : string) : bool :=
  match Get target key h with
  | (Ret v, _) => String.eqb (typeof h v) "function"
  | (Thrown _, _) => false
  end.

Definition _actualMethodKeys (target : jsval) : M (list string) :=
  names <- getOwnPropertyNames target ;;
  gets (fun h => List.filter (is_function_at h target)
                   (List.filter (is_plain_property h target) names)).

(** The closing conditional of the [forEach] callback: both branches are
    written out as in the source. *)
Definition wrapSelected (target : jsval) (key : string) : M unit :=
  f <- Get target key ;;
  constructor <- constructor_name f ;;
  if String.eqb constructor "GeneratorFunction"
  then f' <- Get target key ;; w <- Co.wrap f' ;; Put target key w
  else f' <- Get target key ;; w <- Co.wrap f' ;; Put target key w.

(** The [forEach] callback of [wrapFunctions]. *)
Definition wrapFunction (target : jsval) (methodNames : argument) (key : string)
  : M unit :=
  f <- Get target key ;;
  constructor <- constructor_name f ;;
  if truthy_arg methodNames
  then
    i <- lift (indexOf methodNames key) ;;
    if i =? -1 then ret tt else wrapSelected target key
  else if negb (endsWith key "Async")
          && negb (String.eqb constructor "GeneratorFunction")
  then ret tt
  else wrapSelected target key.

Definition wrapFunctions (target : jsval) (methodNames : argument) : M unit :=
  keys <- _actualMethodKeys target ;;
  forEach keys (wrapFunction target methodNames).

(** The closing statements of the [map] callback of [getAllFunctions]. *)
Definition collectSelected (functions target : jsval) (key : string) : M unit :=
  f <- Get target key ;;
  constructor <- constructor_name f ;;
  if String.eqb constructor "GeneratorFunction"
  then f' <- Get target key ;; w <- Co.wrap f' ;; Put functions key w
  else f' <- Get target key ;; w <- Co.wrap f' ;; Put functions key w.

(** The [map] callback of [getAllFunctions]. *)
Definition collectFunction (functions target : jsval) (methodNames : argument)
  (key : string) : M unit :=
  f <- Get target key ;;
  constructor <- constructor_name f ;;
  let isAsyncFunction :=
    endsWith key "Async" || String.eqb constructor "GeneratorFunction" in
  if truthy_arg methodNames
  then
    i <- lift (indexOf methodNames key) ;;
    if i =? -1 then ret tt else collectSelected functions target key
  else if String.eqb key "constructor" then ret tt
  else if negb isAsyncFunction
  then f' <- Get target key ;; Put functions key f'
  else collectSelected functions target key.

(** [const functions = {}] is a new object without own properties, which
    inherits from [Object.prototype] alone. *)
Definition getAllFunctions (target : jsval) (methodNames : argument) : M jsval :=
  functions <- alloc {| own := []; proto := None; callable := None |} ;;
  keys <- _actualMethodKeys target ;;
  forEach keys (collectFunction functions target methodNames) ;;;
  ret functions.

Definition wrapStaticMethods (klass : jsval) (methodNames : argument) : M jsval :=
  validateMethodNames methodNames ;;;
  wrapFunctions klass methodNames ;;;
  ret klass.

Definition getStaticMethods (klass : jsval) : M jsval :=
  getAllFunctions klass (AVal VUndefined).

Definition wrapInstanceMethods (klass : jsval) (methodNames : argument) : M jsval :=
  validateMethodNames methodNames ;;;
  prototype <- Get klass "prototype" ;;
  wrapFunctions prototype methodNames ;;;
  ret klass.

Definition getInstanceMethods (klass : jsval) : M jsval :=
  prototype <- Get klass "prototype" ;;
  getAllFunctions prototype (AVal VUndefined).

Definition wrap (klass : jsval) (methodNames : argument) : M jsval :=
  validateMethodNames methodNames ;;;
  wrapStaticMethods klass methodNames ;;;
  wrapInstanceMethods klass methodNames ;;;
  ret klass.

End AsyncClass.

(* ===================================================================== *)
(** ** Vocabulary of the statements *)
(* ===================================================================== *)

Module Surface.
Import Js.

(** [key] names a candidate member of the object at [l]: an own data
    property that holds the function object [f], whose code is [c]. *)
Definition candidate (h : heap) (l : loc) (key : string) (f : loc) (c : code) : Prop :=
  getOwnPropertyDescriptor h (VRef l) key = Some (Data (VRef f))
  /\ code_of h (VRef f) = Some c.

(** The selection made by [wrapFunctions] on a candidate. *)
Definition selects (methodNames : argument) (key : string) (c : code) : bool :=
  if truthy_arg methodNames
  then match indexOf methodNames key with
       | Ret i => negb (i =? -1)
       | Thrown _ => false
       end
  else endsWith key "Async" || String.eqb (ctor_name c) "GeneratorFunction".

Definition selected (h : heap) (o : object) (methodNames : argument) (key : string)
  : bool :=
  match lookup_own key (own o) with
  | Some (Data v) =>
      match code_of h v with
      | Some c => selects methodNames key c
      | None => false
      end
  | _ => false
  end.

(** The filter passes [validateMethodNames]. *)
Definition valid (methodNames : argument) : Prop :=
  truthy_arg methodNames = false \/ exists names, methodNames = AArray names.

(** An object of the store is well formed: its keys are distinct and its
    data properties refer to allocated objects. *)
Definition refers_inside (h : heap) (kp : string * property) : Prop :=
  match snd kp with
  | Data (VRef l) => (l < length h)%nat
  | _ => True
  end.

Definition well_formed (h : heap) (o : object) : Prop :=
  NoDup (map fst (own o)) /\ Forall (refers_inside h) (own o).

(** [klass] is a class: a function object whose own data property
    [prototype] refers to the object [prototype], which is not a function. *)
Definition is_class (h : heap) (klass prototype : loc) : Prop :=
  exists K P,
    h !! klass = Some K /\ h !! prototype = Some P
    /\ lookup_own "prototype" (own K) = Some (Data (VRef prototype))
    /\ is_Some (callable K) /\ callable P = None
    /\ well_formed h K /\ well_formed h P.

(** [a] is a function object that did not exist in [h] and is the
    [co.wrap] adapter of [f]. *)
Definition fresh_adapter (h h' : heap) (a f : loc) : Prop :=
  h !! a = None /\ h' !! a = Some (Co.adapter h (VRef f)).

(** The effect of [wrapFunctions] on the object at [l]: the object keeps
    its keys, prototype link and code; a selected member now holds a fresh
    adapter of the function it held; every other property is the one it
    was. *)
Definition rewritten (h h' : heap) (l : loc) (methodNames : argument) : Prop :=
  exists o o',
    h !! l = Some o /\ h' !! l = Some o'
    /\ map fst (own o') = map fst (own o)
    /\ proto o' = proto o /\ callable o' = callable o
    /\ forall key,
        if selected h o methodNames key
        then exists f a,
            lookup_own key (own o) = Some (Data (VRef f))
            /\ lookup_own key (own o') = Some (Data (VRef a))
            /\ fresh_adapter h h' a f
        else lookup_own key (own o') = lookup_own key (own o).

(** Every object of [h] other than those listed is the same in [h']. *)
Definition frame (h h' : heap) (changed : list loc) : Prop :=
  (length h <= length h')%nat
  /\ forall l, ~ In l changed -> (l < length h)%nat -> h' !! l = h !! l.

(** The mapping built by [getAllFunctions] for the object at [l], found at
    [m] in [h']: a candidate other than [constructor] appears as a fresh
    adapter when it is matched (suffix or generator) and as the function
    itself otherwise; no other key appears. *)
Definition collected (h h' : heap) (l m : loc) : Prop :=
  exists o functions,
    h !! l = Some o /\ h !! m = None /\ h' !! m = Some functions
    /\ callable functions = None
    /\ forall key,
        match lookup_own key (own o) with
        | Some (Data (VRef f)) =>
            match code_of h (VRef f) with
            | Some c =>
                if String.eqb key "constructor"
                then lookup_own key (own functions) = None
                else if endsWith key "Async"
                        || String.eqb (ctor_name c) "GeneratorFunction"
                then exists a, a <> m
                     /\ lookup_own key (own functions) = Some (Data (VRef a))
                     /\ fresh_adapter h h' a f
                else lookup_own key (own functions) = Some (Data (VRef f))
            | None => lookup_own key (own functions) = None
            end
        | _ => lookup_own key (own functions) = None
        end.

(** The object at [l] has no candidate member named [__proto__]. *)
Definition no_proto_member (h : heap) (l : loc) : Prop :=
  forall f c, ~ candidate h l "__proto__" f c.

(** The assignment [functions[key] = v] adds [key] to a mapping that does
    not hold it: every key does, except [__proto__]. *)
Definition adds_key (key : string) : bool := negb (String.eqb key "__proto__").

(** The mapping built by [getAllFunctions] for any object at [l], found at
    [m] in [h']: as [collected], except that a candidate named [__proto__]
    is not a key of the mapping either. *)
Definition gathered (h h' : heap) (l m : loc) : Prop :=
  exists o functions,
    h !! l = Some o /\ h !! m = None /\ h' !! m = Some functions
    /\ callable functions = None
    /\ forall key,
        match lookup_own key (own o) with
        | Some (Data (VRef f)) =>
            match code_of h (VRef f) with
            | Some c =>
                if String.eqb key "constructor" || negb (adds_key key)
                then lookup_own key (own functions) = None
                else if endsWith key "Async"
                        || String.eqb (ctor_name c) "GeneratorFunction"
                then exists a, a <> m
                     /\ lookup_own key (own functions) = Some (Data (VRef a))
                     /\ fresh_adapter h h' a f
                else lookup_own key (own functions) = Some (Data (VRef f))
            | None => lookup_own key (own functions) = None
            end
        | _ => lookup_own key (own functions) = None
        end.

(** A value returned by a member that is a promise, a primitive value or
    an [Error] instance: not a reference to an object of the store, which
    could be a function or have a [next] method. *)
Definition no_reference (value : retval) : Prop :=
  forall l, value <> Plain (VRef l).

(** *** Stores along a run *)

(** The object [o] with another property table. *)
Definition with_own (o : object) (ps : list (string * property)) : object :=
  {| own := ps; proto := proto o; callable := callable o |}.

(** [h'] is reached from [h] by allocating behind it and rewriting
    property tables: the code of every function of [h] is kept. *)
Definition extends (h h' : heap) : Prop :=
  (length h <= length h')%nat
  /\ forall l o, h !! l = Some o ->
       exists o', h' !! l = Some o' /\ callable o' = callable o.

(** The store after [target[key] = co.wrap(target[key])] on the object [o]
    at [l], whose member [key] holds [f]. *)
Definition adapted (h : heap) (l : loc) (o : object) (key : string) (f : loc) : heap :=
  <[l := with_own o (assign_own key (VRef (length h)) (own o))]>
    (h ++ [Co.adapter h (VRef f)]).

(** The keys [ks] of the object [o] are candidates in [h]. *)
Definition candidates (h : heap) (o : object) (ks : list string) : Prop :=
  forall key, In key ks ->
    exists f c, lookup_own key (own o) = Some (Data (VRef f))
                /\ code_of h (VRef f) = Some c.

(** What the mapping [functions], found at [m], holds for the candidate
    [key] once the loop that started in [h] has reached [h']; [h0] is the
    store [getAllFunctions] was called in.  Neither [constructor], which
    the loop skips, nor [__proto__], which the assignment does not add, is
    a key of it. *)
Definition entry (h0 : heap) (m : loc) (h h' : heap) (functions : object)
  (key : string) (f : loc) (c : code) : Prop :=
  if String.eqb key "constructor" || negb (adds_key key)
  then lookup_own key (own functions) = None
  else if endsWith key "Async" || String.eqb (ctor_name c) "GeneratorFunction"
  then exists a, a <> m /\ (length h <= a)%nat
       /\ lookup_own key (own functions) = Some (Data (VRef a))
       /\ h' !! a = Some (Co.adapter h0 (VRef f))
  else lookup_own key (own functions) = Some (Data (VRef f)).

(** *** Members before and after a call *)

(** The member [key] of the object at [l], which held the function [f],
    now holds a fresh adapter of [f]. *)
Definition replaced (h h' : heap) (l : loc) (key : string) (f : loc) : Prop :=
  exists a,
    getOwnPropertyDescriptor h' (VRef l) key = Some (Data (VRef a))
    /\ fresh_adapter h h' a f.

(** The property [key] of the object at [l] is the one it was. *)
Definition kept (h h' : heap) (l : loc) (key : string) : Prop :=
  getOwnPropertyDescriptor h' (VRef l) key = getOwnPropertyDescriptor h (VRef l) key.

(** The candidates of the object at [l] are split by [chosen]: the chosen
    ones are replaced, the others kept. *)
Definition partitioned (h h' : heap) (l : loc) (chosen : string -> code -> Prop)
  : Prop :=
  forall key f c, candidate h l key f c ->
    (chosen key c -> replaced h h' l key f)
    /\ (~ chosen key c -> kept h h' l key).


(** No object of [h] has changed. *)
Definition unchanged (h h' : heap) : Prop :=
  forall l o, h !! l = Some o -> h' !! l = Some o.

(** *** Shapes and orders *)

(** The object at [l] has the keys it had, in the order it had them, and
    the same prototype link and code. *)
Definition same_shape (h h' : heap) (l : loc) : Prop :=
  exists o o',
    h !! l = Some o /\ h' !! l = Some o'
    /\ map fst (own o') = map fst (own o)
    /\ proto o' = proto o /\ callable o' = callable o.

(** The test [key === 'constructor'] of [getAllFunctions], negated. *)
Definition not_constructor (key : string) : bool :=
  negb (String.eqb key "constructor").

(** The candidates that become keys of the mapping. *)
Definition mapped_key (key : string) : bool :=
  not_constructor key && adds_key key.

End Surface.

(** *** The simplified functions of the design note *)

Module Uniform.
Import Js.
Local Open Scope js_scope.

(** One wrapping call, applied without looking at the kind. *)
Definition wrapSelected (target : jsval) (key : string) : M unit :=
  f <- Get target key ;; w <- Co.wrap f ;; Put target key w.

Definition wrapFunction (target : jsval) (methodNames : argument) (key : string)
  : M unit :=
  f <- Get target key ;;
  constructor <- constructor_name f ;;
  if truthy_arg methodNames
  then
    i <- lift (indexOf methodNames key) ;;
    if i =? -1 then ret tt else wrapSelected target key
  else if negb (endsWith key "Async")
          && negb (String.eqb constructor "GeneratorFunction")
  then ret tt
  else wrapSelected target key.

Definition wrapFunctions (target : jsval) (methodNames : argument) : M unit :=
  keys <- AsyncClass._actualMethodKeys target ;;
  forEach keys (wrapFunction target methodNames).

Definition collectSelected (functions target : jsval) (key : string) : M unit :=
  f <- Get target key ;; w <- Co.wrap f ;; Put functions key w.

Definition collectFunction (functions target : jsval) (methodNames : argument)
  (key : string) : M unit :=
  f <- Get target key ;;
  constructor <- constructor_name f ;;
  let isAsyncFunction :=
    endsWith key "Async" || String.eqb constructor "GeneratorFunction" in
  if truthy_arg methodNames
  then
    i <- lift (indexOf methodNames key) ;;
    if i =? -1 then ret tt else collectSelected functions target key
  else if String.eqb key "constructor" then ret tt
  else if negb isAsyncFunction
  then f' <- Get target key ;; Put functions key f'
  else collectSelected functions target key.

Definition getAllFunctions (target : jsval) (methodNames : argument) : M jsval :=
  functions <- alloc {| own := []; proto := None; callable := None |} ;;
  keys <- AsyncClass._actualMethodKeys target ;;
  forEach keys (collectFunction functions target methodNames) ;;;
  ret functions.

End Uniform.

(** *** A class to run the functions on *)

(** The store of the class [K] below, with [K] at address 0,
    [K.prototype] at address 1, the functions of its members behind them
    and, at address 7, the prototype [K.prototype] inherits from, listed
    with its one method.

<<
    class Base { inheritedAsync() {} }
    class K extends Base {
      constructor() { super(); }
      static computeAsync(x) { return x * 2; }
      static helper() {}
      fooAsync() { throw E; }
      * load(id) {
        const a = yield Promise.resolve(id);
        const b = yield Promise.resolve(a + 1);
        return a + b;
      }
      bar() {}
      get baz() { return 1; }
    }
>> *)

Module Example.
Import Js.

Definition E : jsval := VError "Error" "boom".

Definition plus (a b : jsval) : jsval :=
  match a, b with
  | VNum x, VNum y => VNum (x + y)
  | _, _ => VNaN
  end.

Definition times (a b : jsval) : jsval :=
  match a, b with
  | VNum x, VNum y => VNum (x * y)
  | _, _ => VNaN
  end.

Definition function_object (tag : string) (body : jsval -> list jsval -> completion)
  : object :=
  {| own := []; proto := None;
     callable := Some {| ctor_name := tag; call := body |} |}.

Definition K_body : jsval -> list jsval -> completion :=
  fun _ _ => Abrupt (TypeError "Class constructor K cannot be invoked without 'new'").

Definition computeAsync_body : jsval -> list jsval -> completion :=
  fun _ args => Normal (RVal (Plain (times (nth 0 args VUndefined) (VNum 2)))).

Definition empty_body : jsval -> list jsval -> completion :=
  fun _ _ => Normal (RVal (Plain VUndefined)).

Definition fooAsync_body : jsval -> list jsval -> completion :=
  fun _ _ => Abrupt E.

(** The generator after its second [yield]. *)
Definition load_second (a : jsval) (r : resume) : gen :=
  match r with
  | RNext b => GReturn (Plain (plus a b))
  | RThrow e => GRaise e
  end.

(** The generator after its first [yield]. *)
Definition load_first (r : resume) : gen :=
  match r with
  | RNext a => GYield (YPromise (Fulfilled (plus a (VNum 1)))) (load_second a)
  | RThrow e => GRaise e
  end.

Definition load_body : jsval -> list jsval -> completion :=
  fun _ args =>
    Normal (RGen (GYield (YPromise (Fulfilled (nth 0 args VUndefined))) load_first)).

Definition store : heap :=
  [ (* 0: K *)
    {| own := [("length", Data (VNum 0)); ("name", Data (VStr "K"));
               ("prototype", Data (VRef 1));
               ("computeAsync", Data (VRef 2)); ("helper", Data (VRef 3))];
       proto := None;
       callable := Some {| ctor_name := "Function"; call := K_body |} |};
    (* 1: K.prototype *)
    {| own := [("constructor", Data (VRef 0)); ("fooAsync", Data (VRef 4));
               ("load", Data (VRef 5)); ("bar", Data (VRef 6));
               ("baz", Accessor (Some (fun _ => Ret (VNum 1))) false)];
       proto := Some 7%nat;
       callable := None |};
    (* 2 *) function_object "Function" computeAsync_body;
    (* 3 *) function_object "Function" empty_body;
    (* 4 *) function_object "Function" fooAsync_body;
    (* 5 *) function_object "GeneratorFunction" load_body;
    (* 6 *) function_object "Function" empty_body;
    (* 7: Base.prototype *)
    {| own := [("inheritedAsync", Data (VRef 8))]; proto := None; callable := None |};
    (* 8 *) function_object "Function" empty_body ].

End Example.

(** The store of a class with a method named [__proto__], which a class
    body defines as an own data property of the prototype like any other
    method: [P] at address 0, [P.prototype] at address 1, the two functions
    behind them.

<<
    class P {
      __proto__() {}
      bar() {}
    }
>> *)

Module ProtoExample.
Import Js.

Definition P_body : jsval -> list jsval -> completion :=
  fun _ _ => Abrupt (TypeError "Class constructor P cannot be invoked without 'new'").

Definition store : heap :=
  [ (* 0: P *)
    {| own := [("length", Data (VNum 0)); ("name", Data (VStr "P"));
               ("prototype", Data (VRef 1))];
       proto := None;
       callable := Some {| ctor_name := "Function"; call := P_body |} |};
    (* 1: P.prototype *)
    {| own := [("constructor", Data (VRef 0)); ("__proto__", Data (VRef 2));
               ("bar", Data (VRef 3))];
       proto := None;
       callable := None |};
    (* 2 *) Example.function_object "Function" Example.empty_body;
    (* 3 *) Example.function_object "Function" Example.empty_body ].

End ProtoExample.

(* ===================================================================== *)
(** ** Property tables *)
(* ===================================================================== *)

Module TableFacts.
Import Js.

Lemma lookup_own_assign_eq key v ps :
  lookup_own key (assign_own key v ps) = Some (Data v).
Proof.
  induction ps as [|[k p] ps IH]; simpl.
  - now rewrite String.eqb_refl.
  - destruct (String.eqb k key) eqn:E; simpl; rewrite E; auto.
Qed.

Lemma lookup_own_assign_ne key key' v ps :
  key' <> key -> lookup_own key' (assign_own key v ps) = lookup_own key' ps.
Proof.
  intros Hne. induction ps as [|[k p] ps IH]; simpl.
  - apply String.eqb_neq in Hne. rewrite String.eqb_sym in Hne. now rewrite Hne.
  - destruct (String.eqb k key) eqn:E; simpl.
    + apply String.eqb_eq in E. subst k.
      assert (String.eqb key key' = false) as ->; [|reflexivity].
      apply String.eqb_neq. congruence.
    + now rewrite IH.
Qed.

Lemma lookup_own_Some_In key p ps :
  lookup_own key ps = Some p -> In key (map fst ps).
Proof.
  induction ps as [|[k q] ps IH]; simpl; [discriminate|].
  destruct (String.eqb_spec k key); auto.
Qed.

Lemma lookup_own_None key ps :
  lookup_own key ps = None <-> ~ In key (map fst ps).
Proof.
  induction ps as [|[k q] ps IH]; simpl.
  - tauto.
  - destruct (String.eqb_spec k key); [|tauto].
    split; [discriminate|]. intros H. exfalso. auto.
Qed.

Lemma lookup_own_In key p ps :
  lookup_own key ps = Some p -> In (key, p) ps.
Proof.
  induction ps as [|[k q] ps IH]; simpl; [discriminate|].
  destruct (String.eqb_spec k key).
  - intros [= ->]. subst. now left.
  - auto.
Qed.

Lemma keys_assign_own_present key v ps :
  lookup_own key ps <> None -> map fst (assign_own key v ps) = map fst ps.
Proof.
  induction ps as [|[k q] ps IH]; simpl; [congruence|].
  destruct (String.eqb k key); simpl; [reflexivity|].
  intros H. now rewrite IH.
Qed.

Lemma assign_own_absent key v ps :
  lookup_own key ps = None -> assign_own key v ps = ps ++ [(key, Data v)].
Proof.
  induction ps as [|[k q] ps IH]; simpl; [reflexivity|].
  destruct (String.eqb k key); [discriminate|].
  intros H. now rewrite IH.
Qed.

End TableFacts.

(* ===================================================================== *)
(** ** Reads, allocation and assignment on the store *)
(* ===================================================================== *)

Module StoreFacts.
Import Js TableFacts Surface.

Lemma get_from_own_data h fuel l receiver key o v :
  h !! l = Some o -> lookup_own key (own o) = Some (Data v) ->
  get_from h fuel l receiver key = Ret v.
Proof. intros Hl Hk. destruct fuel; simpl; now rewrite Hl, Hk. Qed.

Lemma Get_own_data h l key o v :
  h !! l = Some o -> lookup_own key (own o) = Some (Data v) ->
  Get (VRef l) key h = (Ret v, h).
Proof.
  intros Hl Hk. unfold Get. now rewrite (get_from_own_data _ _ _ _ _ _ _ Hl Hk).
Qed.

Lemma Get_state target key h r h' : Get target key h = (r, h') -> h' = h.
Proof. destruct target; simpl; congruence. Qed.

Lemma constructor_name_state v h r h' : constructor_name v h = (r, h') -> h' = h.
Proof.
  destruct v; simpl; try congruence.
  destruct (h !! l) as [o|]; [destruct (callable o)|]; congruence.
Qed.

Lemma constructor_name_function h f c :
  code_of h (VRef f) = Some c ->
  constructor_name (VRef f) h = (Ret (ctor_name c), h).
Proof. intros Hc. unfold constructor_name. now rewrite Hc. Qed.

Lemma code_of_allocated h v c : code_of h v = Some c -> exists l, v = VRef l /\ (l < length h)%nat.
Proof.
  destruct v; simpl; try discriminate.
  destruct (h !! l) eqn:E; [|discriminate].
  intros _. exists l. split; [reflexivity|]. eapply lookup_lt_Some; eauto.
Qed.

Lemma typeof_function h v :
  typeof h v = "function" <-> exists c, code_of h v = Some c.
Proof.
  destruct v; simpl; try (split; [discriminate|intros [c Hc]; discriminate]).
  destruct (h !! l) as [o|]; [destruct (callable o)|];
    (split; [intros H; try discriminate; eauto|intros [c' Hc]; congruence]).
Qed.

(** What one assignment [target[key] = v] does to the store. *)
Lemma Put_own_data h l key o v0 v :
  h !! l = Some o -> lookup_own key (own o) = Some (Data v0) ->
  Put (VRef l) key v h = (Ret tt, <[l := with_own o (assign_own key v (own o))]> h).
Proof. intros Hl Hk. unfold Put, assigned. now rewrite Hl, Hk. Qed.

Lemma extends_refl h : extends h h.
Proof. split; [lia|]. eauto. Qed.

Lemma extends_trans h1 h2 h3 : extends h1 h2 -> extends h2 h3 -> extends h1 h3.
Proof.
  intros [L1 E1] [L2 E2]. split; [lia|].
  intros l o Hl. destruct (E1 _ _ Hl) as (o2 & H2 & C2).
  destruct (E2 _ _ H2) as (o3 & H3 & C3). exists o3. split; congruence.
Qed.

Lemma extends_code_of h h' v c :
  extends h h' -> code_of h v = Some c -> code_of h' v = Some c.
Proof.
  intros [_ E]. destruct v; simpl; try discriminate.
  destruct (h !! l) as [o|] eqn:Hl; [|discriminate].
  destruct (E _ _ Hl) as (o' & -> & ->). auto.
Qed.

Lemma extends_code_of_eq h h' l :
  extends h h' -> (l < length h)%nat -> code_of h' (VRef l) = code_of h (VRef l).
Proof.
  intros [_ E] Hlt. simpl.
  destruct (lookup_lt_is_Some_2 h l Hlt) as [o Hl].
  destruct (E _ _ Hl) as (o' & -> & ->). now rewrite Hl.
Qed.

Lemma extends_adapter h h' f :
  extends h h' -> (f < length h)%nat -> Co.adapter h' (VRef f) = Co.adapter h (VRef f).
Proof.
  intros E Hlt. unfold Co.adapter. now rewrite (extends_code_of_eq _ _ _ E Hlt).
Qed.

Lemma extends_alloc h o : extends h (h ++ [o]).
Proof.
  split; [rewrite length_app; lia|].
  intros l o0 Hl. exists o0. split; [|reflexivity].
  rewrite lookup_app_l; [assumption|]. eapply lookup_lt_Some; eauto.
Qed.

Lemma extends_rewrite h l o ps :
  h !! l = Some o -> extends h (<[l := with_own o ps]> h).
Proof.
  intros Hl. split; [rewrite length_insert; lia|].
  intros l' o' Hl'. destruct (decide (l = l')) as [<-|Hne].
  - exists (with_own o ps). split.
    + apply list_lookup_insert_eq. eapply lookup_lt_Some; eauto.
    + simpl. congruence.
  - exists o'. split; [|reflexivity]. now rewrite list_lookup_insert_ne.
Qed.

Lemma frame_refl h ls : frame h h ls.
Proof. split; [lia|auto]. Qed.

Lemma frame_trans h1 h2 h3 ls :
  frame h1 h2 ls -> frame h2 h3 ls -> frame h1 h3 ls.
Proof.
  intros [L1 F1] [L2 F2]. split; [lia|].
  intros l Hn Hlt. rewrite F2; [auto|auto|lia].
Qed.

Lemma frame_weaken h h' ls ls' :
  (forall l, In l ls -> In l ls') -> frame h h' ls -> frame h h' ls'.
Proof. intros Hs [L F]. split; [assumption|]. intros l Hn. apply F. auto. Qed.

End StoreFacts.

(* ===================================================================== *)
(** ** One member, then the loop of [wrapFunctions] *)
(* ===================================================================== *)

Module WrapFacts.
Import Js TableFacts Surface StoreFacts.

Lemma wrapSelected_candidate h l key o f c :
  h !! l = Some o ->
  lookup_own key (own o) = Some (Data (VRef f)) ->
  code_of h (VRef f) = Some c ->
  AsyncClass.wrapSelected (VRef l) key h = (Ret tt, adapted h l o key f).
Proof.
  intros Hl Hk Hc.
  assert ((h ++ [Co.adapter h (VRef f)]) !! l = Some o) as Hl'.
  { rewrite lookup_app_l; [assumption|]. eapply lookup_lt_Some; eauto. }
  unfold AsyncClass.wrapSelected, bind.
  rewrite (Get_own_data _ _ _ _ _ Hl Hk), (constructor_name_function _ _ _ Hc).
  destruct (String.eqb (ctor_name c) "GeneratorFunction");
    rewrite (Get_own_data _ _ _ _ _ Hl Hk); unfold Co.wrap, alloc;
    now rewrite (Put_own_data _ _ _ _ _ _ Hl' Hk).
Qed.

Lemma valid_indexOf methodNames key :
  valid methodNames -> truthy_arg methodNames = true ->
  exists i, indexOf methodNames key = Ret i.
Proof.
  intros [Hf|[names ->]] Ht; [congruence|]. simpl. eauto.
Qed.

Lemma wrapFunction_candidate h l key o f c methodNames :
  valid methodNames ->
  h !! l = Some o ->
  lookup_own key (own o) = Some (Data (VRef f)) ->
  code_of h (VRef f) = Some c ->
  AsyncClass.wrapFunction (VRef l) methodNames key h =
    if selects methodNames key c then (Ret tt, adapted h l o key f) else (Ret tt, h).
Proof.
  intros Hv Hl Hk Hc.
  unfold AsyncClass.wrapFunction, selects, bind at 1 2.
  rewrite (Get_own_data _ _ _ _ _ Hl Hk), (constructor_name_function _ _ _ Hc).
  destruct (truthy_arg methodNames) eqn:Ht.
  - destruct (valid_indexOf _ key Hv Ht) as [i Hi]. unfold bind, lift. rewrite Hi.
    destruct (i =? -1); simpl; [reflexivity|].
    apply (wrapSelected_candidate _ _ _ _ _ _ Hl Hk Hc).
  - destruct (endsWith key "Async"), (String.eqb (ctor_name c) "GeneratorFunction");
      simpl; try reflexivity; apply (wrapSelected_candidate _ _ _ _ _ _ Hl Hk Hc).
Qed.

Lemma adapted_target h l o key f :
  h !! l = Some o ->
  adapted h l o key f !! l
  = Some (with_own o (assign_own key (VRef (length h)) (own o))).
Proof.
  intros Hl. unfold adapted. apply list_lookup_insert_eq.
  rewrite length_app. apply lookup_lt_Some in Hl. lia.
Qed.

Lemma adapted_length h l o key f : length (adapted h l o key f) = S (length h).
Proof. unfold adapted. rewrite length_insert, length_app. simpl. lia. Qed.

Lemma adapted_adapter h l o key f :
  h !! l = Some o ->
  adapted h l o key f !! length h = Some (Co.adapter h (VRef f)).
Proof.
  intros Hl. unfold adapted. apply lookup_lt_Some in Hl.
  rewrite list_lookup_insert_ne by lia.
  rewrite lookup_app_r by lia. now rewrite Nat.sub_diag.
Qed.

Lemma adapted_other h l o key f l' :
  l' <> l -> (l' < length h)%nat -> adapted h l o key f !! l' = h !! l'.
Proof.
  intros Hne Hlt. unfold adapted.
  rewrite list_lookup_insert_ne by congruence. now apply lookup_app_l.
Qed.

Lemma adapted_extends h l o key f :
  h !! l = Some o -> extends h (adapted h l o key f).
Proof.
  intros Hl. unfold adapted. eapply extends_trans; [apply extends_alloc|].
  apply extends_rewrite. rewrite lookup_app_l; [assumption|].
  eapply lookup_lt_Some; eauto.
Qed.

Lemma adapted_frame h l o key f : frame h (adapted h l o key f) [l].
Proof.
  split; [rewrite adapted_length; lia|].
  intros l' Hn Hlt. apply adapted_other; [|assumption].
  intros ->. apply Hn. now left.
Qed.

(** The loop over the candidate keys: it ends normally; the members among
    [ks] that are selected hold fresh adapters, every other property of the
    object is kept, and so is every other object. *)
Lemma forEach_wrapFunction methodNames l ks :
  valid methodNames ->
  forall h o,
    h !! l = Some o -> NoDup ks -> candidates h o ks ->
    exists h' o',
      forEach ks (AsyncClass.wrapFunction (VRef l) methodNames) h = (Ret tt, h')
      /\ extends h h' /\ frame h h' [l]
      /\ h' !! l = Some o'
      /\ map fst (own o') = map fst (own o)
      /\ proto o' = proto o /\ callable o' = callable o
      /\ (forall key, In key ks -> selected h o methodNames key = true ->
            exists f a, lookup_own key (own o) = Some (Data (VRef f))
                        /\ lookup_own key (own o') = Some (Data (VRef a))
                        /\ fresh_adapter h h' a f)
      /\ (forall key, ~ In key ks \/ selected h o methodNames key = false ->
            lookup_own key (own o') = lookup_own key (own o)).
Proof.
  intros Hv. induction ks as [|k ks IH]; intros h o Hl Hnd Hc.
  - exists h, o. split; [reflexivity|].
    split; [apply extends_refl|]. split; [apply frame_refl|].
    repeat (split; [auto; fail|]). split; [intros key []|auto].
  - apply NoDup_cons in Hnd as [Hk Hnd].
    rewrite list_elem_of_In in Hk.
    destruct (Hc k (or_introl eq_refl)) as (f & c & Hkf & Hfc).
    simpl. unfold bind.
    rewrite (wrapFunction_candidate _ _ _ _ _ _ _ Hv Hl Hkf Hfc).
    assert (selected h o methodNames k = selects methodNames k c) as Hsel.
    { unfold selected. now rewrite Hkf, Hfc. }
    destruct (selects methodNames k c) eqn:Hs.
    + (* the member is replaced *)
      set (h1 := adapted h l o k f).
      set (o1 := with_own o (assign_own k (VRef (length h)) (own o))).
      assert (h1 !! l = Some o1) as Hl1 by (apply adapted_target; assumption).
      assert (extends h h1) as He1 by (apply adapted_extends; assumption).
      assert (candidates h1 o1 ks) as Hc1.
      { intros key Hin. destruct (Hc key (or_intror Hin)) as (f' & c' & Hkf' & Hfc').
        exists f', c'. split.
        - simpl. rewrite lookup_own_assign_ne; [assumption|]. congruence.
        - eapply extends_code_of; eauto. }
      destruct (IH h1 o1 Hl1 Hnd Hc1)
        as (h' & o' & Hrun & He & Hf & Hl' & Hkeys & Hp & Hcl & Hsel' & Hoth).
      exists h', o'. split; [assumption|].
      split; [eapply extends_trans; eauto|].
      split; [eapply frame_trans; [apply adapted_frame|eauto]|].
      split; [assumption|].
      split.
      { rewrite Hkeys. simpl. apply keys_assign_own_present. congruence. }
      split; [rewrite Hp; reflexivity|].
      split; [rewrite Hcl; reflexivity|].
      assert (lookup_lt : (l < length h)%nat) by (eapply lookup_lt_Some; eauto).
      split.
      * intros key [<-|Hin] Hsk.
        -- exists f, (length h). split; [assumption|]. split.
           ++ rewrite Hoth by (left; assumption). simpl.
              apply lookup_own_assign_eq.
           ++ split; [apply lookup_ge_None; lia|].
              destruct Hf as [_ Hf]. rewrite Hf.
              ** apply adapted_adapter. assumption.
              ** simpl. lia.
              ** unfold h1. rewrite adapted_length. lia.
        -- assert (key <> k) as Hne by congruence.
           destruct (Hc key (or_intror Hin)) as (f' & c' & Hkf' & Hfc').
           assert (selected h1 o1 methodNames key = true) as Hsk1.
           { unfold selected in *. simpl.
             rewrite lookup_own_assign_ne by assumption.
             rewrite Hkf' in *. rewrite (extends_code_of _ _ _ _ He1 Hfc').
             now rewrite Hfc' in Hsk. }
           destruct (Hsel' key Hin Hsk1) as (f0 & a & Hk0 & Hka & Hnone & Had).
           simpl in Hk0. rewrite lookup_own_assign_ne in Hk0 by assumption.
           exists f0, a. split; [assumption|]. split; [assumption|].
           assert (f0 = f') as -> by congruence.
           destruct (code_of_allocated _ _ _ Hfc') as (l0 & [= <-] & Hlt0).
           split.
           ++ apply lookup_ge_None. apply lookup_ge_None in Hnone.
              unfold h1 in Hnone. rewrite adapted_length in Hnone. lia.
           ++ rewrite Had. f_equal. apply extends_adapter; assumption.
      * intros key Hcase.
        destruct (decide (key = k)) as [->|Hne].
        -- destruct Hcase as [Hn|Hn]; [exfalso; apply Hn; now left|congruence].
        -- rewrite Hoth.
           ++ simpl. now apply lookup_own_assign_ne.
           ++ destruct Hcase as [Hn|Hn]; [left; intros Hin; apply Hn; now right|].
              destruct (In_dec String.string_dec key ks) as [Hin|Hin]; [|now left].
              right. destruct (Hc key (or_intror Hin)) as (f' & c' & Hkf' & Hfc').
              unfold selected in *. simpl.
              rewrite lookup_own_assign_ne by assumption.
              rewrite Hkf' in *. rewrite (extends_code_of _ _ _ _ He1 Hfc').
              now rewrite Hfc' in Hn.
    + (* the member is skipped *)
      destruct (IH h o Hl Hnd (fun key Hin => Hc key (or_intror Hin)))
        as (h' & o' & Hrun & He & Hf & Hl' & Hkeys & Hp & Hcl & Hsel' & Hoth).
      exists h', o'. repeat (split; [assumption|]). split.
      * intros key [<-|Hin] Hsk; [congruence|auto].
      * intros key Hcase. apply Hoth.
        destruct (decide (key = k)) as [->|Hne]; [now left|].
        destruct Hcase as [Hn|Hn]; [left; intros Hin; apply Hn; now right|now right].
Qed.

End WrapFacts.

(* ===================================================================== *)
(** ** The classifier and the [wrap] family *)
(* ===================================================================== *)

Module ClassifierFacts.
Import Js TableFacts Surface StoreFacts WrapFacts.

Lemma get_from_own h fuel l receiver key o p :
  h !! l = Some o -> lookup_own key (own o) = Some p ->
  get_from h fuel l receiver key
  = match p with
    | Data v => Ret v
    | Accessor None _ => Ret VUndefined
    | Accessor (Some getter) _ => getter receiver
    end.
Proof. intros Hl Hk. destruct fuel; simpl; now rewrite Hl, Hk. Qed.

Lemma actualMethodKeys_object h l o :
  h !! l = Some o ->
  AsyncClass._actualMethodKeys (VRef l) h
  = (Ret (List.filter (AsyncClass.is_function_at h (VRef l))
            (List.filter (AsyncClass.is_plain_property h (VRef l))
               (map fst (own o)))), h).
Proof.
  intros Hl. unfold AsyncClass._actualMethodKeys, bind, getOwnPropertyNames, gets.
  now rewrite Hl.
Qed.

(** The keys that pass both filters are the own data properties that hold
    a function. *)
Lemma actualMethodKeys_candidate h l o key :
  h !! l = Some o ->
  In key (List.filter (AsyncClass.is_function_at h (VRef l))
            (List.filter (AsyncClass.is_plain_property h (VRef l))
               (map fst (own o))))
  <-> exists f c, lookup_own key (own o) = Some (Data (VRef f))
                  /\ code_of h (VRef f) = Some c.
Proof.
  intros Hl. rewrite !filter_In.
  unfold AsyncClass.is_plain_property, AsyncClass.is_function_at,
    getOwnPropertyDescriptor, Get.
  rewrite Hl. split.
  - intros [[Hin Hplain] Hfun].
    destruct (lookup_own key (own o)) as [p|] eqn:Hk; [|discriminate].
    rewrite (get_from_own _ _ _ _ _ _ _ Hl Hk) in Hfun.
    destruct p as [v|[getter|] has_setter]; simpl in Hplain, Hfun;
      try discriminate.
    apply String.eqb_eq, typeof_function in Hfun. destruct Hfun as [c Hc].
    destruct (code_of_allocated _ _ _ Hc) as (f & -> & _). eauto.
  - intros (f & c & Hk & Hc). rewrite Hk.
    rewrite (get_from_own _ _ _ _ _ _ _ Hl Hk).
    split; [split; [eapply lookup_own_Some_In; eauto|reflexivity]|].
    apply String.eqb_eq, typeof_function. eauto.
Qed.

Lemma selected_candidate h o methodNames key :
  selected h o methodNames key = true ->
  exists f c, lookup_own key (own o) = Some (Data (VRef f))
              /\ code_of h (VRef f) = Some c
              /\ selects methodNames key c = true.
Proof.
  unfold selected. destruct (lookup_own key (own o)) as [[v|]|]; try discriminate.
  destruct (code_of h v) as [c|] eqn:Hc; [|discriminate].
  destruct (code_of_allocated _ _ _ Hc) as (f & -> & _). eauto.
Qed.

Lemma selected_extends h h' o methodNames key :
  extends h h' -> Forall (refers_inside h) (own o) ->
  selected h' o methodNames key = selected h o methodNames key.
Proof.
  intros He Hin. unfold selected.
  destruct (lookup_own key (own o)) as [[v|]|] eqn:Hk; try reflexivity.
  destruct v; try reflexivity.
  rewrite List.Forall_forall in Hin. specialize (Hin _ (lookup_own_In _ _ _ Hk)).
  now rewrite (extends_code_of_eq _ _ _ He Hin).
Qed.

Lemma validateMethodNames_valid methodNames h :
  valid methodNames -> AsyncClass.validateMethodNames methodNames h = (Ret tt, h).
Proof.
  unfold AsyncClass.validateMethodNames.
  intros [->|[names ->]]; reflexivity.
Qed.

Lemma validateMethodNames_invalid methodNames h :
  truthy_arg methodNames = true -> instanceof_Array methodNames = false ->
  AsyncClass.validateMethodNames methodNames h = (Thrown AsyncClass.InvalidArgument, h).
Proof.
  unfold AsyncClass.validateMethodNames. now intros -> ->.
Qed.

Lemma valid_iff methodNames :
  valid methodNames
  <-> ~ (truthy_arg methodNames = true /\ instanceof_Array methodNames = false).
Proof.
  unfold valid. destruct methodNames as [v|xs]; simpl.
  - destruct (truthy v); split.
    + intros [H|[names H]]; discriminate.
    + intros H. exfalso. auto.
    + intros _ [H _]. discriminate.
    + auto.
  - split; [intros _ [_ H]; discriminate|eauto].
Qed.

(** [wrapFunctions] on an object with distinct keys. *)
Lemma wrapFunctions_object methodNames h l o :
  valid methodNames -> h !! l = Some o -> NoDup (map fst (own o)) ->
  exists h',
    AsyncClass.wrapFunctions (VRef l) methodNames h = (Ret tt, h')
    /\ extends h h' /\ frame h h' [l] /\ rewritten h h' l methodNames.
Proof.
  intros Hv Hl Hnd.
  unfold AsyncClass.wrapFunctions, bind. rewrite (actualMethodKeys_object _ _ _ Hl).
  set (ks := List.filter _ _).
  assert (NoDup ks) as Hks.
  { apply NoDup_ListNoDup. unfold ks. do 2 apply List.NoDup_filter.
    now apply NoDup_ListNoDup. }
  assert (candidates h o ks) as Hc.
  { intros key Hin. now apply (actualMethodKeys_candidate _ _ _ _ Hl). }
  destruct (forEach_wrapFunction methodNames l ks Hv h o Hl Hks Hc)
    as (h' & o' & Hrun & He & Hf & Hl' & Hkeys & Hp & Hcl & Hsel & Hoth).
  exists h'. repeat (split; [assumption|]).
  exists o, o'. repeat (split; [assumption|]).
  intros key. destruct (selected h o methodNames key) eqn:Hs.
  - apply Hsel; [|assumption].
    destruct (selected_candidate _ _ _ _ Hs) as (f & c & Hk & Hfc & _).
    apply (actualMethodKeys_candidate _ _ _ _ Hl). eauto.
  - apply Hoth. now right.
Qed.

End ClassifierFacts.

Module FamilyFacts.
Import Js TableFacts Surface StoreFacts WrapFacts ClassifierFacts.

Lemma is_class_distinct h klass p : is_class h klass p -> klass <> p.
Proof.
  intros (K & P & HK & HP & _ & [c HcK] & HcP & _) ->.
  assert (K = P) as -> by congruence. congruence.
Qed.

Lemma rewritten_later h h1 h' l methodNames ls :
  rewritten h h1 l methodNames -> frame h1 h' ls ->
  (forall x, In x ls -> (x < length h)%nat) -> ~ In l ls ->
  rewritten h h' l methodNames.
Proof.
  intros (o & o' & Hl & Hl1 & Hkeys & Hp & Hc & Hall) [Hlen Hf] Hls Hnl.
  assert (h' !! l = Some o') as Hl'.
  { rewrite Hf; [assumption|assumption|]. eapply lookup_lt_Some; eauto. }
  exists o, o'. repeat (split; [assumption|]).
  intros key. specialize (Hall key).
  destruct (selected h o methodNames key); [|assumption].
  destruct Hall as (f & a & Hk & Hk' & Hnone & Had).
  exists f, a. repeat (split; [assumption|]).
  rewrite Hf; [assumption| |eapply lookup_lt_Some; eauto].
  intros Hin. apply Hls in Hin. apply lookup_ge_None in Hnone. lia.
Qed.

Lemma rewritten_earlier h h1 h' l o methodNames :
  rewritten h1 h' l methodNames -> extends h h1 ->
  h !! l = Some o -> h1 !! l = Some o -> Forall (refers_inside h) (own o) ->
  rewritten h h' l methodNames.
Proof.
  intros (o1 & o' & Hl1 & Hl' & Hkeys & Hp & Hc & Hall) He Hl Hl1' Hin.
  assert (o1 = o) as -> by congruence.
  exists o, o'. repeat (split; [assumption|]).
  intros key. specialize (Hall key).
  rewrite (selected_extends _ _ _ _ _ He Hin) in Hall.
  destruct (selected h o methodNames key); [|assumption].
  destruct Hall as (f & a & Hk & Hk' & Hnone & Had).
  exists f, a. repeat (split; [assumption|]).
  rewrite List.Forall_forall in Hin. specialize (Hin _ (lookup_own_In _ _ _ Hk)).
  split.
  - apply lookup_ge_None. apply lookup_ge_None in Hnone. destruct He. lia.
  - rewrite Had. f_equal. apply extends_adapter; assumption.
Qed.

Lemma wrapStaticMethods_object methodNames h klass K :
  valid methodNames -> h !! klass = Some K -> NoDup (map fst (own K)) ->
  exists h',
    AsyncClass.wrapStaticMethods (VRef klass) methodNames h = (Ret (VRef klass), h')
    /\ extends h h' /\ frame h h' [klass] /\ rewritten h h' klass methodNames.
Proof.
  intros Hv HK Hnd.
  destruct (wrapFunctions_object _ _ _ _ Hv HK Hnd) as (h' & Hrun & Hrest).
  exists h'. split; [|assumption].
  unfold AsyncClass.wrapStaticMethods, bind.
  now rewrite (validateMethodNames_valid _ _ Hv), Hrun.
Qed.

Lemma wrapInstanceMethods_object methodNames h klass K p P :
  valid methodNames ->
  h !! klass = Some K -> lookup_own "prototype" (own K) = Some (Data (VRef p)) ->
  h !! p = Some P -> NoDup (map fst (own P)) ->
  exists h',
    AsyncClass.wrapInstanceMethods (VRef klass) methodNames h = (Ret (VRef klass), h')
    /\ extends h h' /\ frame h h' [p] /\ rewritten h h' p methodNames.
Proof.
  intros Hv HK Hproto HP Hnd.
  destruct (wrapFunctions_object _ _ _ _ Hv HP Hnd) as (h' & Hrun & Hrest).
  exists h'. split; [|assumption].
  unfold AsyncClass.wrapInstanceMethods, bind.
  now rewrite (validateMethodNames_valid _ _ Hv),
    (Get_own_data _ _ _ _ _ HK Hproto), Hrun.
Qed.

(** [wrap] on a class: both surfaces are rewritten, nothing else is
    touched, and the class itself is returned. *)
Lemma wrap_class methodNames h klass p :
  valid methodNames -> is_class h klass p ->
  exists h',
    AsyncClass.wrap (VRef klass) methodNames h = (Ret (VRef klass), h')
    /\ extends h h' /\ frame h h' [klass; p]
    /\ rewritten h h' klass methodNames /\ rewritten h h' p methodNames.
Proof.
  intros Hv Hclass. pose proof (is_class_distinct _ _ _ Hclass) as Hne.
  destruct Hclass as (K & P & HK & HP & Hproto & HcK & HcP & [HndK HinK] & [HndP HinP]).
  destruct (wrapStaticMethods_object _ _ _ _ Hv HK HndK)
    as (h1 & Hrun1 & He1 & Hf1 & R1).
  pose proof R1 as (K0 & K1 & HK0 & HK1 & Hkeys1 & _ & _ & Hall1).
  assert (K0 = K) as -> by congruence.
  assert (lookup_own "prototype" (own K1) = Some (Data (VRef p))) as Hproto1.
  { specialize (Hall1 "prototype"). unfold selected in Hall1.
    rewrite Hproto in Hall1. simpl in Hall1. rewrite HP, HcP in Hall1.
    congruence. }
  assert (p < length h)%nat as Hplt by (eapply lookup_lt_Some; eauto).
  assert (klass < length h)%nat as Hklt by (eapply lookup_lt_Some; eauto).
  assert (h1 !! p = Some P) as HP1.
  { destruct Hf1 as [_ Hf1]. rewrite Hf1; [assumption| |assumption].
    simpl. intros [?|[]]. congruence. }
  destruct (wrapInstanceMethods_object _ _ _ _ _ _ Hv HK1 Hproto1 HP1 HndP)
    as (h' & Hrun2 & He2 & Hf2 & R2).
  exists h'. split.
  { unfold AsyncClass.wrap, bind.
    now rewrite (validateMethodNames_valid _ _ Hv), Hrun1, Hrun2. }
  split; [eapply extends_trans; eauto|].
  split.
  { apply (frame_trans _ h1);
      [apply (frame_weaken _ _ [klass])|apply (frame_weaken _ _ [p])];
      auto; simpl; intuition. }
  split.
  - eapply rewritten_later; eauto; simpl.
    + intros x [<-|[]]. assumption.
    + intros [?|[]]. congruence.
  - eapply rewritten_earlier; eauto.
Qed.

End FamilyFacts.

(* ===================================================================== *)
(** ** The loop of [getAllFunctions] *)
(* ===================================================================== *)

Module CollectFacts.
Import Js TableFacts Surface StoreFacts WrapFacts ClassifierFacts.

Lemma frame_nil_extends h h' : frame h h' [] -> extends h h'.
Proof.
  intros [Hlen Hf]. split; [assumption|].
  intros l o Hl. exists o. split; [|reflexivity].
  rewrite Hf; [assumption|auto|]. eapply lookup_lt_Some; eauto.
Qed.

Lemma code_of_alloc_plain h o v :
  callable o = None -> code_of (h ++ [o]) v = code_of h v.
Proof.
  intros Hc. destruct v; try reflexivity. simpl.
  destruct (decide (l < length h)%nat) as [Hlt|Hge].
  - now rewrite lookup_app_l.
  - rewrite lookup_app_r by lia. rewrite (proj2 (lookup_ge_None h l)) by lia.
    destruct (l - length h)%nat; simpl; [now rewrite Hc|reflexivity].
Qed.

(** An assignment to a key that the mapping does not hold yet. *)
Lemma Put_absent h m key mo v :
  h !! m = Some mo -> lookup_own key (own mo) = None ->
  Put (VRef m) key v h = (Ret tt, <[m := assigned mo key v]> h).
Proof. intros Hm Hk. unfold Put. now rewrite Hm, Hk. Qed.

Lemma assigned_callable mo key v : callable (assigned mo key v) = callable mo.
Proof.
  unfold assigned. destruct (lookup_own key (own mo)); [reflexivity|].
  destruct (String.eqb key "__proto__"); [|reflexivity]. now destruct v.
Qed.

Lemma assigned_other mo key v key' :
  key' <> key ->
  lookup_own key' (own (assigned mo key v)) = lookup_own key' (own mo).
Proof.
  intros Hne. unfold assigned.
  destruct (lookup_own key (own mo));
    [simpl; now apply lookup_own_assign_ne|].
  destruct (String.eqb key "__proto__");
    [now destruct v|simpl; now apply lookup_own_assign_ne].
Qed.

(** A function assigned to a new key: the key is added, unless it is
    [__proto__]. *)
Lemma assigned_new mo key f :
  lookup_own key (own mo) = None ->
  lookup_own key (own (assigned mo key (VRef f)))
  = if adds_key key then Some (Data (VRef f)) else None.
Proof.
  intros Hk. unfold assigned, adds_key. rewrite Hk.
  destruct (String.eqb key "__proto__"); simpl;
    [assumption|apply lookup_own_assign_eq].
Qed.

Lemma assigned_new_keys mo key f :
  lookup_own key (own mo) = None ->
  map fst (own (assigned mo key (VRef f)))
  = map fst (own mo) ++ (if adds_key key then [key] else []).
Proof.
  intros Hk. unfold assigned, adds_key. rewrite Hk.
  destruct (String.eqb key "__proto__"); simpl.
  - now rewrite app_nil_r.
  - rewrite (assign_own_absent _ _ _ Hk). now rewrite map_app.
Qed.

(** The keys [_actualMethodKeys] returns are not changed by the allocation
    of an object that is not a function. *)
Lemma candidate_keys_alloc_plain h l o e :
  h !! l = Some o -> callable e = None ->
  List.filter (AsyncClass.is_function_at (h ++ [e]) (VRef l))
    (List.filter (AsyncClass.is_plain_property (h ++ [e]) (VRef l))
       (map fst (own o)))
  = List.filter (AsyncClass.is_function_at h (VRef l))
      (List.filter (AsyncClass.is_plain_property h (VRef l)) (map fst (own o))).
Proof.
  intros Hl He.
  assert ((h ++ [e]) !! l = Some o) as Hl1.
  { rewrite lookup_app_l; [assumption|]. eapply lookup_lt_Some; eauto. }
  assert (forall key, AsyncClass.is_plain_property (h ++ [e]) (VRef l) key
                      = AsyncClass.is_plain_property h (VRef l) key) as Hplain.
  { intros key. unfold AsyncClass.is_plain_property, getOwnPropertyDescriptor.
    now rewrite Hl1, Hl. }
  rewrite (List.filter_ext _ _ Hplain).
  apply List.filter_ext_in. intros key Hin. apply filter_In in Hin as [_ Hp].
  unfold AsyncClass.is_plain_property, getOwnPropertyDescriptor in Hp.
  rewrite Hl in Hp.
  destruct (lookup_own key (own o)) as [q|] eqn:Hk; [|discriminate].
  unfold AsyncClass.is_function_at, Get.
  rewrite (get_from_own _ _ _ _ _ _ _ Hl1 Hk), (get_from_own _ _ _ _ _ _ _ Hl Hk).
  destruct q as [v|[g|] s]; simpl in Hp; try discriminate; [|reflexivity].
  destruct v; try reflexivity. unfold typeof.
  now rewrite (code_of_alloc_plain h e (VRef l0) He).
Qed.

Section Loop.

Variables (h0 : list object) (l m : nat) (o : object).
Variable methodNames : argument.
Hypothesis Hfalsy : truthy_arg methodNames = false.
Hypothesis Hl : h0 !! l = Some o.
Hypothesis Hm : (length h0 <= m)%nat.

Lemma collectFunction_candidate h mo key f c :
  frame h0 h [] -> h !! m = Some mo ->
  lookup_own key (own o) = Some (Data (VRef f)) ->
  code_of h0 (VRef f) = Some c ->
  lookup_own key (own mo) = None ->
  AsyncClass.collectFunction (VRef m) (VRef l) methodNames key h
  = (Ret tt,
     if String.eqb key "constructor" then h
     else if endsWith key "Async" || String.eqb (ctor_name c) "GeneratorFunction"
     then <[m := assigned mo key (VRef (length h))]>
            (h ++ [Co.adapter h0 (VRef f)])
     else <[m := assigned mo key (VRef f)]> h).
Proof.
  intros Hf Hmo Hk Hc Hnew.
  assert (h !! l = Some o) as Hl'.
  { destruct Hf as [_ Hf]. rewrite Hf; [assumption|auto|].
    eapply lookup_lt_Some; eauto. }
  pose proof (extends_code_of _ _ _ _ (frame_nil_extends _ _ Hf) Hc) as Hc'.
  destruct (code_of_allocated _ _ _ Hc) as (f' & [= <-] & Hflt).
  unfold AsyncClass.collectFunction, bind at 1 2.
  rewrite (Get_own_data _ _ _ _ _ Hl' Hk), (constructor_name_function _ _ _ Hc').
  rewrite Hfalsy.
  destruct (String.eqb key "constructor"); [reflexivity|].
  destruct (endsWith key "Async" || String.eqb (ctor_name c) "GeneratorFunction");
    simpl.
  - assert ((h ++ [Co.adapter h (VRef f)]) !! m = Some mo) as Hmo'.
    { rewrite lookup_app_l; [assumption|]. eapply lookup_lt_Some; eauto. }
    unfold AsyncClass.collectSelected, bind.
    rewrite (Get_own_data _ _ _ _ _ Hl' Hk), (constructor_name_function _ _ _ Hc').
    destruct (String.eqb (ctor_name c) "GeneratorFunction");
      rewrite (Get_own_data _ _ _ _ _ Hl' Hk); unfold Co.wrap, alloc;
      rewrite (Put_absent _ _ _ _ _ Hmo' Hnew);
      now rewrite (extends_adapter _ _ _ (frame_nil_extends _ _ Hf) Hflt).
  - unfold bind. rewrite (Get_own_data _ _ _ _ _ Hl' Hk).
    now rewrite (Put_absent _ _ _ _ _ Hmo Hnew).
Qed.

(** One turn of the loop on a candidate the mapping does not hold: the
    store reached, the mapping in it, and the key added. *)
Lemma collectFunction_turn h mo key f c :
  frame h0 h [] -> h !! m = Some mo ->
  lookup_own key (own o) = Some (Data (VRef f)) ->
  code_of h0 (VRef f) = Some c ->
  lookup_own key (own mo) = None ->
  exists h1 mo1,
    AsyncClass.collectFunction (VRef m) (VRef l) methodNames key h = (Ret tt, h1)
    /\ h1 !! m = Some mo1 /\ frame h h1 [m] /\ frame h0 h1 []
    /\ callable mo1 = callable mo
    /\ (forall key', key' <> key ->
          lookup_own key' (own mo1) = lookup_own key' (own mo))
    /\ map fst (own mo1)
       = map fst (own mo) ++ (if mapped_key key then [key] else [])
    /\ (forall h', frame h1 h' [m] -> entry h0 m h h' mo1 key f c).
Proof.
  intros Hf Hmo Hk Hc Hnew.
  assert (m < length h)%nat as Hmlt by (eapply lookup_lt_Some; eauto).
  rewrite (collectFunction_candidate _ _ _ _ _ Hf Hmo Hk Hc Hnew).
  unfold entry, mapped_key, not_constructor.
  destruct (String.eqb key "constructor") eqn:Hctor; cbn [negb andb orb].
  { exists h, mo. split; [reflexivity|]. split; [assumption|].
    split; [apply frame_refl|]. split; [assumption|].
    split; [reflexivity|]. split; [reflexivity|].
    split; [now rewrite app_nil_r|]. intros _ _. assumption. }
  assert (forall h1, frame h h1 [m] -> frame h0 h1 []) as Hf0.
  { intros h1 [Hlen1 Hf1]. destruct Hf as [Hlen0 Hf]. split; [lia|].
    intros x _ Hlt. rewrite Hf1; [auto| |lia]. simpl. intros [->|[]]. lia. }
  destruct (endsWith key "Async" || String.eqb (ctor_name c) "GeneratorFunction").
  - set (h1 := <[m := _]> _).
    assert (frame h h1 [m]) as Hf1.
    { unfold h1. split; [rewrite length_insert, length_app; lia|].
      intros x Hx Hlt. rewrite list_lookup_insert_ne by (simpl in Hx; intuition).
      now apply lookup_app_l. }
    exists h1, (assigned mo key (VRef (length h))).
    split; [reflexivity|].
    split; [apply list_lookup_insert_eq; rewrite length_app; lia|].
    split; [assumption|]. split; [auto|].
    split; [apply assigned_callable|].
    split; [intros key' Hne; now apply assigned_other|].
    split; [apply (assigned_new_keys _ _ _ Hnew)|].
    intros h' [_ Hf']. rewrite (assigned_new _ _ _ Hnew).
    destruct (adds_key key); cbn [negb]; [|reflexivity].
    exists (length h). split; [lia|]. split; [lia|]. split; [reflexivity|].
    rewrite Hf'.
    + unfold h1. rewrite list_lookup_insert_ne by lia.
      rewrite lookup_app_r by lia. now rewrite Nat.sub_diag.
    + simpl. intros [?|[]]. lia.
    + unfold h1. rewrite length_insert, length_app. simpl. lia.
  - set (h1 := <[m := _]> _).
    assert (frame h h1 [m]) as Hf1.
    { unfold h1. split; [rewrite length_insert; lia|].
      intros x Hx Hlt. now rewrite list_lookup_insert_ne by (simpl in Hx; intuition). }
    exists h1, (assigned mo key (VRef f)).
    split; [reflexivity|].
    split; [now apply list_lookup_insert_eq|].
    split; [assumption|]. split; [auto|].
    split; [apply assigned_callable|].
    split; [intros key' Hne; now apply assigned_other|].
    split; [apply (assigned_new_keys _ _ _ Hnew)|].
    intros h' _. rewrite (assigned_new _ _ _ Hnew).
    now destruct (adds_key key).
Qed.

Lemma forEach_collectFunction ks :
  forall h mo,
    frame h0 h [] -> h !! m = Some mo ->
    NoDup ks -> candidates h0 o ks ->
    (forall key, In key ks -> lookup_own key (own mo) = None) ->
    exists h' mo',
      forEach ks (AsyncClass.collectFunction (VRef m) (VRef l) methodNames) h
      = (Ret tt, h')
      /\ frame h0 h' [] /\ frame h h' [m]
      /\ h' !! m = Some mo' /\ callable mo' = callable mo
      /\ (forall key, ~ In key ks ->
            lookup_own key (own mo') = lookup_own key (own mo))
      /\ map fst (own mo') = map fst (own mo) ++ List.filter mapped_key ks
      /\ (forall key f c, In key ks ->
            lookup_own key (own o) = Some (Data (VRef f)) ->
            code_of h0 (VRef f) = Some c ->
            entry h0 m h h' mo' key f c).
Proof.
  induction ks as [|k ks IH]; intros h mo Hf Hmo Hnd Hc Hnew.
  - exists h, mo. split; [reflexivity|]. split; [assumption|].
    split; [apply frame_refl|]. repeat (split; [auto; fail|]).
    split; [simpl; now rewrite app_nil_r|].
    intros key f c [].
  - apply NoDup_cons in Hnd as [Hk Hnd]. rewrite list_elem_of_In in Hk.
    destruct (Hc k (or_introl eq_refl)) as (f & c & Hkf & Hfc).
    destruct (collectFunction_turn _ _ _ _ _ Hf Hmo Hkf Hfc
                (Hnew k (or_introl eq_refl)))
      as (h1 & mo1 & Hrun1 & Hmo1 & Hf1 & Hf01 & Hcl1 & Hother & Hkeys1 & Hent1).
    cbn [forEach]. unfold bind. rewrite Hrun1.
    assert (forall key, In key ks -> lookup_own key (own mo1) = None) as Hnew1.
    { intros key Hin. rewrite Hother by congruence. apply Hnew. now right. }
    destruct (IH h1 mo1 Hf01 Hmo1 Hnd (fun key Hin => Hc key (or_intror Hin)) Hnew1)
      as (h' & mo' & Hrun & Hf0' & Hf' & Hmo' & Hcl' & Hkeep & Hkeys & Hent).
    exists h', mo'. split; [assumption|]. split; [assumption|].
    split; [eapply frame_trans; eauto|]. split; [assumption|].
    split; [congruence|]. split.
    { intros key Hn. rewrite Hkeep by (intros Hin; apply Hn; now right).
      apply Hother. intros ->. apply Hn. now left. }
    split.
    { rewrite Hkeys, Hkeys1. cbn [List.filter].
      destruct (mapped_key k); now rewrite <- app_assoc. }
    intros key f' c' [<-|Hin] Hkf' Hfc'.
    + assert (f' = f) as -> by congruence. assert (c' = c) as -> by congruence.
      specialize (Hent1 h' Hf'). unfold entry in *. rewrite (Hkeep k Hk).
      assumption.
    + specialize (Hent key f' c' Hin Hkf' Hfc'). unfold entry in *.
      destruct (String.eqb key "constructor" || negb (adds_key key)); [assumption|].
      destruct (endsWith key "Async"
                || String.eqb (ctor_name c') "GeneratorFunction"); [|assumption].
      destruct Hent as (a & Ham & Hage & Hka & Had).
      exists a. repeat (split; [auto; fail|]). split; [|auto].
      destruct Hf1. lia.
Qed.

End Loop.

(** [getAllFunctions] without a filter, on an object with distinct keys:
    the mapping is a new object, no object of the store is modified, and
    the keys of the mapping are those of the candidates that are neither
    [constructor] nor [__proto__], in their order. *)
Lemma getAllFunctions_object h l o :
  h !! l = Some o -> NoDup (map fst (own o)) ->
  exists h' functions,
    AsyncClass.getAllFunctions (VRef l) (AVal VUndefined) h
    = (Ret (VRef (length h)), h')
    /\ frame h h' [] /\ gathered h h' l (length h)
    /\ h' !! length h = Some functions
    /\ map fst (own functions)
       = List.filter mapped_key
           (List.filter (AsyncClass.is_function_at h (VRef l))
              (List.filter (AsyncClass.is_plain_property h (VRef l))
                 (map fst (own o)))).
Proof.
  intros Hl Hnd.
  set (empty := {| own := []; proto := None; callable := None |}).
  assert ((h ++ [empty]) !! l = Some o) as Hl1.
  { rewrite lookup_app_l; [assumption|]. eapply lookup_lt_Some; eauto. }
  assert ((h ++ [empty]) !! length h = Some empty) as Hm1.
  { rewrite lookup_app_r by lia. now rewrite Nat.sub_diag. }
  assert (frame h (h ++ [empty]) []) as Hf1.
  { split; [rewrite length_app; lia|]. intros x _ Hlt. now apply lookup_app_l. }
  unfold AsyncClass.getAllFunctions, bind, alloc. fold empty.
  rewrite (actualMethodKeys_object _ _ _ Hl1).
  set (ks := List.filter _ _).
  assert (NoDup ks) as Hks.
  { apply NoDup_ListNoDup. unfold ks. do 2 apply List.NoDup_filter.
    now apply NoDup_ListNoDup. }
  assert (forall key, In key ks <->
            exists f c, lookup_own key (own o) = Some (Data (VRef f))
                        /\ code_of h (VRef f) = Some c) as Hcand.
  { intros key. unfold ks. rewrite (actualMethodKeys_candidate _ _ _ _ Hl1).
    split; intros (f & c & Hk & Hc); exists f, c; split; try assumption.
    - now rewrite code_of_alloc_plain in Hc.
    - now rewrite code_of_alloc_plain. }
  destruct (forEach_collectFunction h l (length h) o (AVal VUndefined)
              eq_refl Hl (Nat.le_refl _) ks (h ++ [empty]) empty Hf1 Hm1 Hks
              (fun key Hin => proj1 (Hcand key) Hin) (fun _ _ => eq_refl))
    as (h' & mo' & Hrun & Hf0' & Hf' & Hmo' & Hcl' & Hkeep & Hkeys & Hent).
  exists h', mo'. rewrite Hrun. split; [reflexivity|]. split; [assumption|].
  split; [|split; [assumption|]].
  2:{ rewrite Hkeys. unfold ks.
      now rewrite (candidate_keys_alloc_plain _ _ _ empty Hl eq_refl). }
  exists o, mo'. split; [assumption|].
  split; [apply lookup_ge_None; lia|]. split; [assumption|].
  split; [assumption|].
  intros key.
  assert (~ In key ks -> lookup_own key (own mo') = None) as Hnone.
  { intros Hn. now rewrite Hkeep. }
  destruct (lookup_own key (own o)) as [[v|g s]|] eqn:Hk;
    try (apply Hnone; rewrite Hcand; intros (f & c & ? & _); congruence).
  destruct v;
    try (apply Hnone; rewrite Hcand; intros (f & c & ? & _); congruence).
  rename l0 into f.
  destruct (code_of h (VRef f)) as [c|] eqn:Hc.
  - assert (In key ks) as Hin by (apply Hcand; eauto).
    specialize (Hent key f c Hin Hk Hc). unfold entry in Hent.
    destruct (String.eqb key "constructor" || negb (adds_key key)); [assumption|].
    destruct (endsWith key "Async" || String.eqb (ctor_name c) "GeneratorFunction");
      [|assumption].
    destruct Hent as (a & Ham & Hage & Hka & Had).
    exists a. split; [assumption|]. split; [assumption|].
    split; [|assumption]. apply lookup_ge_None. rewrite length_app in Hage. lia.
  - apply Hnone. rewrite Hcand. intros (f' & c' & Hk' & Hc'). congruence.
Qed.

End CollectFacts.

(* ===================================================================== *)
(** ** The filter, the empty filter and the two branches *)
(* ===================================================================== *)

Module FilterFacts.
Import Js TableFacts Surface StoreFacts WrapFacts ClassifierFacts FamilyFacts.

Lemma array_indexOf_absent names key i :
  ~ In (VStr key) names -> array_indexOf names key i = -1.
Proof.
  revert i. induction names as [|x names IH]; intros i Hn; simpl; [reflexivity|].
  destruct x; simpl; try (apply IH; intros H; apply Hn; now right).
  destruct (String.eqb_spec s key) as [->|Hne].
  - exfalso. apply Hn. now left.
  - apply IH. intros H. apply Hn. now right.
Qed.

Lemma array_indexOf_present names key i :
  In (VStr key) names -> 0 <= i -> i <= array_indexOf names key i.
Proof.
  revert i. induction names as [|x names IH]; intros i Hin Hi; simpl; [destruct Hin|].
  destruct (strict_equals_str x key) eqn:Hx; [lia|].
  destruct Hin as [->|Hin].
  - simpl in Hx. rewrite String.eqb_refl in Hx. discriminate.
  - specialize (IH (i + 1) Hin). lia.
Qed.

Lemma jsval_eq_dec (a b : jsval) : {a = b} + {a <> b}.
Proof.
  decide equality;
    auto using Z.eq_dec, String.string_dec, Bool.bool_dec, Nat.eq_dec.
Qed.

(** With a list, a candidate is selected exactly when the list names it. *)
Lemma selects_listed names key c :
  selects (AArray names) key c = true <-> In (VStr key) names.
Proof.
  unfold selects. simpl. split.
  - intros H. destruct (In_dec jsval_eq_dec (VStr key) names) as [Hin|Hn];
      [assumption|].
    rewrite (array_indexOf_absent _ _ _ Hn) in H. discriminate.
  - intros Hin. pose proof (array_indexOf_present names key 0 Hin ltac:(lia)).
    destruct (array_indexOf names key 0 =? -1) eqn:E; [|reflexivity].
    apply Z.eqb_eq in E. lia.
Qed.

Lemma selects_unfiltered methodNames key c :
  truthy_arg methodNames = false ->
  selects methodNames key c
  = endsWith key "Async" || String.eqb (ctor_name c) "GeneratorFunction".
Proof. unfold selects. now intros ->. Qed.

Lemma valid_unfiltered methodNames : truthy_arg methodNames = false -> valid methodNames.
Proof. now left. Qed.

Lemma valid_listed names : valid (AArray names).
Proof. right. eauto. Qed.

(** With the empty list nothing is selected and the store is left as it
    is, whatever the object holds. *)
Lemma wrapFunctions_empty_list h l :
  AsyncClass.wrapFunctions (VRef l) (AArray []) h = (Ret tt, h).
Proof.
  unfold AsyncClass.wrapFunctions, bind.
  destruct (h !! l) as [o|] eqn:Hl.
  - rewrite (actualMethodKeys_object _ _ _ Hl).
    set (ks := List.filter _ _).
    assert (candidates h o ks) as Hc.
    { intros key Hin. now apply (actualMethodKeys_candidate _ _ _ _ Hl). }
    clearbody ks. induction ks as [|k ks IH]; [reflexivity|].
    destruct (Hc k (or_introl eq_refl)) as (f & c & Hk & Hfc).
    cbn [forEach]. unfold bind.
    rewrite (wrapFunction_candidate _ _ _ _ _ _ _ (valid_listed []) Hl Hk Hfc).
    unfold selects. simpl. apply IH. intros key Hin. apply Hc. now right.
  - unfold AsyncClass._actualMethodKeys, bind, getOwnPropertyNames, gets.
    now rewrite Hl.
Qed.

(** The conditional on the kind makes no difference. *)
Lemma wrapSelected_uniform target key h :
  forall f c, Get target key h = (Ret f, h) -> constructor_name f h = (Ret c, h) ->
  AsyncClass.wrapSelected target key h = Uniform.wrapSelected target key h.
Proof.
  intros f c Hg Hc. unfold AsyncClass.wrapSelected, Uniform.wrapSelected, bind.
  rewrite Hg, Hc. now destruct (String.eqb c "GeneratorFunction"); rewrite Hg.
Qed.

Lemma collectSelected_uniform functions target key h f c :
  Get target key h = (Ret f, h) -> constructor_name f h = (Ret c, h) ->
  AsyncClass.collectSelected functions target key h
  = Uniform.collectSelected functions target key h.
Proof.
  intros Hg Hc. unfold AsyncClass.collectSelected, Uniform.collectSelected, bind.
  rewrite Hg, Hc. now destruct (String.eqb c "GeneratorFunction"); rewrite Hg.
Qed.

Lemma wrapFunction_uniform target methodNames key h :
  AsyncClass.wrapFunction target methodNames key h
  = Uniform.wrapFunction target methodNames key h.
Proof.
  unfold AsyncClass.wrapFunction, Uniform.wrapFunction, bind.
  destruct (Get target key h) as [[f|e] h1] eqn:Hg; [|reflexivity].
  pose proof (Get_state _ _ _ _ _ Hg) as ->.
  destruct (constructor_name f h) as [[c|e] h2] eqn:Hc; [|reflexivity].
  pose proof (constructor_name_state _ _ _ _ Hc) as ->.
  destruct (truthy_arg methodNames).
  - unfold lift. destruct (indexOf methodNames key) as [i|e]; [|reflexivity].
    destruct (i =? -1); [reflexivity|].
    eapply wrapSelected_uniform; eauto.
  - destruct (negb (endsWith key "Async") && negb (String.eqb c "GeneratorFunction"));
      [reflexivity|]. eapply wrapSelected_uniform; eauto.
Qed.

Lemma collectFunction_uniform functions target methodNames key h :
  AsyncClass.collectFunction functions target methodNames key h
  = Uniform.collectFunction functions target methodNames key h.
Proof.
  unfold AsyncClass.collectFunction, Uniform.collectFunction, bind.
  destruct (Get target key h) as [[f|e] h1] eqn:Hg; [|reflexivity].
  pose proof (Get_state _ _ _ _ _ Hg) as ->.
  destruct (constructor_name f h) as [[c|e] h2] eqn:Hc; [|reflexivity].
  pose proof (constructor_name_state _ _ _ _ Hc) as ->.
  destruct (truthy_arg methodNames).
  - unfold lift. destruct (indexOf methodNames key) as [i|e]; [|reflexivity].
    destruct (i =? -1); [reflexivity|].
    eapply collectSelected_uniform; eauto.
  - destruct (String.eqb key "constructor"); [reflexivity|].
    destruct (negb (endsWith key "Async" || String.eqb c "GeneratorFunction"));
      [reflexivity|]. eapply collectSelected_uniform; eauto.
Qed.

Lemma forEach_ext {A} (xs : list A) (f g : A -> M unit) h :
  (forall x h, f x h = g x h) -> forEach xs f h = forEach xs g h.
Proof.
  intros Hfg. revert h. induction xs as [|x xs IH]; intros h; [reflexivity|].
  simpl. unfold bind. rewrite Hfg. destruct (g x h) as [[[]|e] h1]; auto.
Qed.

End FilterFacts.

(* ===================================================================== *)
(** ** The adapter *)
(* ===================================================================== *)

Module AdapterFacts.
Import Js Surface.

(** A fault of a plain body leaves [createPromise] as a throw. *)
Lemma createPromise_abrupt c this args e :
  call c this args = Abrupt e ->
  Co.createPromise (Some c) this args = Abrupt e.
Proof. intros H. unfold Co.createPromise. now rewrite H. Qed.

(** Any normal return of the body becomes a promise. *)
Lemma createPromise_normal c this args r :
  call c this args = Normal r ->
  Co.createPromise (Some c) this args = Normal (RVal (Thenable (snd (Co.co r)))).
Proof. intros H. unfold Co.createPromise. now rewrite H. Qed.

(** A function returned by the body is called by [co] inside the promise:
    what it throws is a rejection, what it returns is resolved or
    driven. *)
Lemma createPromise_function c this args f applied :
  call c this args = Normal (RFun f applied) ->
  Co.createPromise (Some c) this args
  = Normal (RVal (Thenable (match applied with
                            | Abrupt e => Rejected e
                            | Normal r => snd (Co.drive r)
                            end))).
Proof.
  intros H. rewrite (createPromise_normal _ _ _ _ H).
  unfold Co.co. now destruct applied.
Qed.

(** A generator that raises, before its first [yield] or when resumed with
    the outcome of the promises it yields, makes the driver reject. *)
Lemma next_fulfilled v k :
  Co.next (GYield (YPromise (Fulfilled v)) k)
  = (Co.Resumed (RNext v) :: fst (Co.next (k (RNext v))), snd (Co.next (k (RNext v)))).
Proof. simpl. now destruct (Co.next (k (RNext v))). Qed.

Lemma next_rejected e k :
  Co.next (GYield (YPromise (Rejected e)) k)
  = (Co.Resumed (RThrow e) :: fst (Co.next (k (RThrow e))), snd (Co.next (k (RThrow e)))).
Proof. simpl. now destruct (Co.next (k (RThrow e))). Qed.

Lemma generator_fault_rejects c this args g e :
  call c this args = Normal (RGen g) ->
  Co.raises g e ->
  Co.createPromise (Some c) this args = Normal (RVal (Thenable (Rejected e))).
Proof.
  intros Hc Hr. rewrite (createPromise_normal _ _ _ _ Hc). do 3 f_equal.
  unfold Co.co, Co.drive. destruct (Co.next g) as [t p] eqn:Hn. simpl.
  change p with (snd (t, p)). rewrite <- Hn. clear Hn Hc t p.
  induction Hr as [e|v k e Hr IH|e0 k e Hr IH|v k e Hr IH].
  - reflexivity.
  - now rewrite next_fulfilled.
  - now rewrite next_rejected.
  - simpl. now destruct (Co.next (k (RThrow (Co.yield_error v)))).
Qed.

End AdapterFacts.

(* ===================================================================== *)
(** ** From the rewritten object to its members *)
(* ===================================================================== *)

Module MemberFacts.
Import Js TableFacts Surface StoreFacts WrapFacts ClassifierFacts FamilyFacts
  CollectFacts FilterFacts.

Lemma candidate_selected h l o methodNames key f c :
  h !! l = Some o -> candidate h l key f c ->
  selected h o methodNames key = selects methodNames key c.
Proof.
  intros Hl [Hd Hc]. unfold getOwnPropertyDescriptor in Hd. rewrite Hl in Hd.
  unfold selected. now rewrite Hd, Hc.
Qed.

Lemma rewritten_kept h h' l o methodNames key :
  rewritten h h' l methodNames -> h !! l = Some o ->
  selected h o methodNames key = false -> kept h h' l key.
Proof.
  intros (o0 & o' & Hl0 & Hl' & _ & _ & _ & Hall) Hl Hs.
  assert (o0 = o) as -> by congruence.
  specialize (Hall key). rewrite Hs in Hall.
  unfold kept, getOwnPropertyDescriptor. now rewrite Hl, Hl'.
Qed.

Lemma rewritten_replaced h h' l methodNames key f c :
  rewritten h h' l methodNames -> candidate h l key f c ->
  selects methodNames key c = true -> replaced h h' l key f.
Proof.
  intros (o & o' & Hl & Hl' & _ & _ & _ & Hall) Hcand Hs.
  specialize (Hall key). rewrite (candidate_selected _ _ _ _ _ _ _ Hl Hcand), Hs in Hall.
  destruct Hall as (f0 & a & Hk & Hk' & Hfresh).
  destruct Hcand as [Hd _]. unfold getOwnPropertyDescriptor in Hd. rewrite Hl in Hd.
  assert (f0 = f) as -> by congruence.
  exists a. split; [|assumption].
  unfold getOwnPropertyDescriptor. now rewrite Hl'.
Qed.


Lemma rewritten_partitioned h h' l methodNames (chosen : string -> code -> Prop) :
  rewritten h h' l methodNames ->
  (forall key c, selects methodNames key c = true <-> chosen key c) ->
  partitioned h h' l chosen.
Proof.
  intros R Hch key f c Hcand. split.
  - intros H. apply Hch in H. eapply rewritten_replaced; eauto.
  - intros H. pose proof R as (o & _ & Hl & _).
    apply (rewritten_kept _ _ _ _ _ _ R Hl).
    rewrite (candidate_selected _ _ _ _ _ _ _ Hl Hcand).
    destruct (selects methodNames key c) eqn:Hs; [|reflexivity].
    exfalso. apply H, Hch, Hs.
Qed.


Lemma frame_same h h' ls l o :
  frame h h' ls -> ~ In l ls -> h !! l = Some o -> h' !! l = Some o.
Proof.
  intros [_ Hf] Hn Hl. rewrite Hf; [assumption|assumption|].
  eapply lookup_lt_Some; eauto.
Qed.

Lemma frame_unchanged h h' : frame h h' [] -> unchanged h h'.
Proof. intros Hf l o Hl. eapply frame_same; eauto. Qed.

Lemma suffix_or_generator key c :
  endsWith key "Async" || String.eqb (ctor_name c) "GeneratorFunction" = true
  <-> endsWith key "Async" = true \/ ctor_name c = "GeneratorFunction".
Proof. rewrite orb_true_iff, String.eqb_eq. reflexivity. Qed.

(** The two read-only entry points on a class. *)
Lemma getStaticMethods_class h klass p :
  is_class h klass p ->
  exists h',
    AsyncClass.getStaticMethods (VRef klass) h = (Ret (VRef (length h)), h')
    /\ frame h h' [] /\ gathered h h' klass (length h).
Proof.
  intros (K & P & HK & _ & _ & _ & _ & [HndK _] & _).
  destruct (getAllFunctions_object _ _ _ HK HndK) as (h' & fs & Hrun & Hf & Hg & _).
  exists h'. auto.
Qed.

Lemma getInstanceMethods_class h klass p :
  is_class h klass p ->
  exists h',
    AsyncClass.getInstanceMethods (VRef klass) h = (Ret (VRef (length h)), h')
    /\ frame h h' [] /\ gathered h h' p (length h).
Proof.
  intros (K & P & HK & HP & Hproto & _ & _ & _ & [HndP _]).
  destruct (getAllFunctions_object _ _ _ HP HndP) as (h' & fs & Hrun & Hf & Hg & _).
  exists h'. split; [|auto].
  unfold AsyncClass.getInstanceMethods, bind.
  now rewrite (Get_own_data _ _ _ _ _ HK Hproto).
Qed.



(** Without a member named [__proto__], every candidate other than
    [constructor] is a key of the mapping. *)
Lemma gathered_collected h h' l m :
  gathered h h' l m -> no_proto_member h l -> collected h h' l m.
Proof.
  intros (o & fs & Hl & Hm & Hm' & Hcl & Hall) Hno.
  exists o, fs. repeat (split; [assumption|]).
  intros key. specialize (Hall key).
  destruct (lookup_own key (own o)) as [[[]|]|] eqn:Hk; try assumption.
  destruct (code_of h (VRef l0)) as [c|] eqn:Hc; [|assumption].
  unfold adds_key in Hall.
  destruct (String.eqb key "__proto__") eqn:Hp.
  - apply String.eqb_eq in Hp as ->. exfalso. apply (Hno l0 c).
    split; [|assumption]. unfold getOwnPropertyDescriptor. now rewrite Hl.
  - cbn [negb] in Hall. now rewrite orb_false_r in Hall.
Qed.

End MemberFacts.

(** ** The example class *)

Module ExampleFacts.
Import Js Surface.

Lemma store_is_class : is_class Example.store 0 1.
Proof.
  eexists _, _. split; [reflexivity|]. split; [reflexivity|].
  split; [reflexivity|]. split; [eexists; reflexivity|]. split; [reflexivity|].
  split; (split; [apply (bool_decide_unpack _); vm_compute; reflexivity|]);
    repeat constructor; simpl; lia.
Qed.

End ExampleFacts.

(* ===================================================================== *)
(** ** The claims *)
(* ===================================================================== *)

Import Js Surface.
Import TableFacts StoreFacts WrapFacts ClassifierFacts FamilyFacts CollectFacts
  FilterFacts AdapterFacts MemberFacts ExampleFacts.

(** *** C9 *)

(** C9: the two branches that wrap a selected callable apply the same
    adaptation: [wrapFunctions] and [getAllFunctions] agree, on every
    target, filter and store, with the versions that make the single
    wrapping call without testing the kind. *)
Theorem branches_are_uniform (target : jsval) (methodNames : argument) (h : heap) :
  AsyncClass.wrapFunctions target methodNames h
  = Uniform.wrapFunctions target methodNames h
  /\ AsyncClass.getAllFunctions target methodNames h
     = Uniform.getAllFunctions target methodNames h.
Proof.
  split.
  - unfold AsyncClass.wrapFunctions, Uniform.wrapFunctions, bind.
    destruct (AsyncClass._actualMethodKeys target h) as [[ks|e] h1]; [|reflexivity].
    apply forEach_ext. intros. apply wrapFunction_uniform.
  - unfold AsyncClass.getAllFunctions, Uniform.getAllFunctions, bind.
    destruct (alloc _ h) as [[functions|e] h1]; [|reflexivity].
    destruct (AsyncClass._actualMethodKeys target h1) as [[ks|e] h2]; [|reflexivity].
    rewrite (forEach_ext ks _ (Uniform.collectFunction functions target methodNames));
      [reflexivity|].
    intros. apply collectFunction_uniform.
Qed.

(** *** C10 *)

(** C10: with the empty array as [methodNames], [wrap], [wrapStaticMethods]
    and [wrapInstanceMethods] raise nothing, return the class they were
    given and leave the whole store, hence every property of the class and
    of its prototype, as it was. *)
Theorem empty_list_is_a_no_op (h : heap) (klass p : loc) (K : object)
  (HK : h !! klass = Some K)
  (Hproto : lookup_own "prototype" (own K) = Some (Data (VRef p))) :
  AsyncClass.wrap (VRef klass) (AArray []) h = (Ret (VRef klass), h)
  /\ AsyncClass.wrapStaticMethods (VRef klass) (AArray []) h = (Ret (VRef klass), h)
  /\ AsyncClass.wrapInstanceMethods (VRef klass) (AArray []) h = (Ret (VRef klass), h).
Proof.
  assert (AsyncClass.wrapStaticMethods (VRef klass) (AArray []) h
          = (Ret (VRef klass), h)) as Hs.
  { unfold AsyncClass.wrapStaticMethods, bind.
    rewrite (validateMethodNames_valid _ _ (valid_listed [])).
    now rewrite wrapFunctions_empty_list. }
  assert (AsyncClass.wrapInstanceMethods (VRef klass) (AArray []) h
          = (Ret (VRef klass), h)) as Hi.
  { unfold AsyncClass.wrapInstanceMethods, bind.
    rewrite (validateMethodNames_valid _ _ (valid_listed [])).
    rewrite (Get_own_data _ _ _ _ _ HK Hproto).
    now rewrite wrapFunctions_empty_list. }
  split; [|split; assumption].
  unfold AsyncClass.wrap, bind.
  rewrite (validateMethodNames_valid _ _ (valid_listed [])).
  now rewrite Hs, Hi.
Qed.

Lemma empty_list_is_a_no_op_witness :
  AsyncClass.wrap (VRef 0) (AArray []) Example.store = (Ret (VRef 0), Example.store)
  /\ AsyncClass.wrapStaticMethods (VRef 0) (AArray []) Example.store
     = (Ret (VRef 0), Example.store)
  /\ AsyncClass.wrapInstanceMethods (VRef 0) (AArray []) Example.store
     = (Ret (VRef 0), Example.store).
Proof.
  eapply (empty_list_is_a_no_op Example.store 0%nat 1%nat); reflexivity.
Defined.

(** *** C3 *)

(** The guard [methodNames && !(methodNames instanceof Array)] as it runs:
    on a class, [wrap], [wrapStaticMethods] and [wrapInstanceMethods] raise
    [InvalidArgument] exactly when [methodNames] is truthy and not an
    array, and then the store is the one before the call. *)
Theorem invalid_filter_is_rejected_first (h : heap) (klass p : loc)
  (methodNames : argument) (Hclass : is_class h klass p) :
  let invalid := truthy_arg methodNames = true
                 /\ instanceof_Array methodNames = false in
  let rejects (run : res jsval * heap) :=
    (fst run = Thrown AsyncClass.InvalidArgument <-> invalid)
    /\ (invalid -> snd run = h)
    /\ (~ invalid -> fst run = Ret (VRef klass)) in
  rejects (AsyncClass.wrap (VRef klass) methodNames h)
  /\ rejects (AsyncClass.wrapStaticMethods (VRef klass) methodNames h)
  /\ rejects (AsyncClass.wrapInstanceMethods (VRef klass) methodNames h).
Proof.
  intros invalid rejects.
  assert (forall run,
            (invalid -> run = (Thrown AsyncClass.InvalidArgument, h)) ->
            (valid methodNames -> exists h', run = (Ret (VRef klass), h')) ->
            rejects run) as Hrej.
  { intros run Hbad Hgood. unfold rejects.
    destruct (valid_iff methodNames) as [Hv1 Hv2]. fold invalid in Hv1, Hv2.
    assert (invalid \/ ~ invalid) as [Hi|Hi].
    { unfold invalid. destruct (truthy_arg methodNames), (instanceof_Array methodNames);
        intuition congruence. }
    - rewrite (Hbad Hi). simpl. intuition.
    - destruct (Hgood (Hv2 Hi)) as [h' ->]. simpl.
      intuition (try discriminate; auto). }
  pose proof Hclass as (K & P & HK & HP & Hproto & _ & _ & [HndK _] & [HndP _]).
  split; [|split]; apply Hrej.
  - intros [Ht Ha]. unfold AsyncClass.wrap, bind.
    now rewrite (validateMethodNames_invalid _ _ Ht Ha).
  - intros Hv. destruct (wrap_class _ _ _ _ Hv Hclass) as (h' & Hrun & _). eauto.
  - intros [Ht Ha]. unfold AsyncClass.wrapStaticMethods, bind.
    now rewrite (validateMethodNames_invalid _ _ Ht Ha).
  - intros Hv. destruct (wrapStaticMethods_object _ _ _ _ Hv HK HndK)
      as (h' & Hrun & _). eauto.
  - intros [Ht Ha]. unfold AsyncClass.wrapInstanceMethods, bind.
    now rewrite (validateMethodNames_invalid _ _ Ht Ha).
  - intros Hv. destruct (wrapInstanceMethods_object _ _ _ _ _ _ Hv HK Hproto HP HndP)
      as (h' & Hrun & _). eauto.
Qed.

Lemma invalid_filter_is_rejected_first_witness :
  AsyncClass.wrap (VRef 0) (AVal (VStr "fooAsync")) Example.store
  = (Thrown AsyncClass.InvalidArgument, Example.store).
Proof.
  pose proof (invalid_filter_is_rejected_first Example.store 0%nat 1%nat
                (AVal (VStr "fooAsync")) store_is_class) as [[Hiff [Hsame _]] _].
  apply injective_projections.
  - apply Hiff. split; reflexivity.
  - apply Hsame. split; reflexivity.
Defined.

(** C3: the three functions are documented to throw "If methodNames is
    provided, but is not an array".  The empty string is provided and is
    not an array, yet on the class [K] none of [wrap], [wrapStaticMethods]
    and [wrapInstanceMethods] raises: each returns the class, and [wrap]
    has gone on to replace [fooAsync] by an adapter, as without a filter.
    The guard tests the truthiness of [methodNames], not its presence. *)
Theorem empty_string_filter_is_accepted :
  AVal (VStr EmptyString) <> AVal VUndefined
  /\ instanceof_Array (AVal (VStr EmptyString)) = false
  /\ fst (AsyncClass.wrap (VRef 0) (AVal (VStr EmptyString)) Example.store)
     = Ret (VRef 0)
  /\ fst (AsyncClass.wrapStaticMethods (VRef 0) (AVal (VStr EmptyString)) Example.store)
     = Ret (VRef 0)
  /\ fst (AsyncClass.wrapInstanceMethods (VRef 0) (AVal (VStr EmptyString)) Example.store)
     = Ret (VRef 0)
  /\ getOwnPropertyDescriptor Example.store (VRef 1) "fooAsync"
     = Some (Data (VRef 4))
  /\ getOwnPropertyDescriptor
       (snd (AsyncClass.wrap (VRef 0) (AVal (VStr EmptyString)) Example.store))
       (VRef 1) "fooAsync"
     = Some (Data (VRef 10)).
Proof.
  split; [discriminate|]. split; [reflexivity|].
  repeat split; vm_compute; reflexivity.
Qed.

(** *** C4 and C5 *)

(** The three mutating entry points on a class, for a filter that passes
    the validation: each returns the class and rewrites its surfaces. *)
Lemma wrap_family_class methodNames h klass p :
  valid methodNames -> is_class h klass p ->
  (exists h',
      AsyncClass.wrap (VRef klass) methodNames h = (Ret (VRef klass), h')
      /\ frame h h' [klass; p]
      /\ rewritten h h' klass methodNames /\ rewritten h h' p methodNames)
  /\ (exists h',
         AsyncClass.wrapStaticMethods (VRef klass) methodNames h
         = (Ret (VRef klass), h')
         /\ frame h h' [klass] /\ rewritten h h' klass methodNames)
  /\ (exists h',
         AsyncClass.wrapInstanceMethods (VRef klass) methodNames h
         = (Ret (VRef klass), h')
         /\ frame h h' [p] /\ rewritten h h' p methodNames).
Proof.
  intros Hv Hclass.
  pose proof Hclass as (K & P & HK & HP & Hproto & _ & _ & [HndK _] & [HndP _]).
  split; [|split].
  - destruct (wrap_class _ _ _ _ Hv Hclass) as (h' & Hrun & _ & Hrest). eauto.
  - destruct (wrapStaticMethods_object _ _ _ _ Hv HK HndK)
      as (h' & Hrun & _ & Hrest). eauto.
  - destruct (wrapInstanceMethods_object _ _ _ _ _ _ Hv HK Hproto HP HndP)
      as (h' & Hrun & _ & Hrest). eauto.
Qed.

(** C4: without a filter (an absent or otherwise falsy [methodNames]), a
    candidate member is replaced by a fresh adapter of the function it held
    exactly when its name ends with [Async] or its constructor name is
    [GeneratorFunction]; every other candidate is the property it was.
    This holds for both surfaces under [wrap] and for the surface that
    [wrapStaticMethods] and [wrapInstanceMethods] each work on. *)
Theorem unfiltered_selection_is_suffix_or_generator
  (h : heap) (klass p : loc) (methodNames : argument)
  (Hclass : is_class h klass p) (Habsent : truthy_arg methodNames = false) :
  let chosen key c :=
    endsWith key "Async" = true \/ ctor_name c = "GeneratorFunction" in
  (exists h',
      AsyncClass.wrap (VRef klass) methodNames h = (Ret (VRef klass), h')
      /\ partitioned h h' klass chosen /\ partitioned h h' p chosen)
  /\ (exists h',
         AsyncClass.wrapStaticMethods (VRef klass) methodNames h
         = (Ret (VRef klass), h')
         /\ partitioned h h' klass chosen)
  /\ (exists h',
         AsyncClass.wrapInstanceMethods (VRef klass) methodNames h
         = (Ret (VRef klass), h')
         /\ partitioned h h' p chosen).
Proof.
  intros chosen.
  assert (forall key c, selects methodNames key c = true <-> chosen key c) as Hch.
  { intros key c. rewrite (selects_unfiltered _ _ _ Habsent).
    apply suffix_or_generator. }
  destruct (wrap_family_class _ _ _ _ (valid_unfiltered _ Habsent) Hclass)
    as ((h1 & Hrun1 & _ & Rk1 & Rp1) & (h2 & Hrun2 & _ & Rk2) & (h3 & Hrun3 & _ & Rp3)).
  split; [|split].
  - exists h1. eauto using rewritten_partitioned.
  - exists h2. eauto using rewritten_partitioned.
  - exists h3. eauto using rewritten_partitioned.
Qed.

Lemma unfiltered_selection_is_suffix_or_generator_witness :
  exists h',
    AsyncClass.wrap (VRef 0) (AVal VUndefined) Example.store = (Ret (VRef 0), h')
    /\ partitioned Example.store h' 0
         (fun key c => endsWith key "Async" = true
                       \/ ctor_name c = "GeneratorFunction")
    /\ partitioned Example.store h' 1
         (fun key c => endsWith key "Async" = true
                       \/ ctor_name c = "GeneratorFunction").
Proof.
  apply (unfiltered_selection_is_suffix_or_generator Example.store 0%nat 1%nat
           (AVal VUndefined) store_is_class).
  reflexivity.
Defined.

(** C5: with an explicit list, membership in the list is the only
    criterion: a candidate the list names is replaced by a fresh adapter
    whatever its name and kind, and a candidate it does not name is the
    property it was, suffix-named and generator members included. *)
Theorem listed_selection_is_membership
  (h : heap) (klass p : loc) (names : list jsval)
  (Hclass : is_class h klass p) :
  let chosen (key : string) (c : code) := In (VStr key) names in
  (exists h',
      AsyncClass.wrap (VRef klass) (AArray names) h = (Ret (VRef klass), h')
      /\ partitioned h h' klass chosen /\ partitioned h h' p chosen)
  /\ (exists h',
         AsyncClass.wrapStaticMethods (VRef klass) (AArray names) h
         = (Ret (VRef klass), h')
         /\ partitioned h h' klass chosen)
  /\ (exists h',
         AsyncClass.wrapInstanceMethods (VRef klass) (AArray names) h
         = (Ret (VRef klass), h')
         /\ partitioned h h' p chosen).
Proof.
  intros chosen.
  assert (forall key c, selects (AArray names) key c = true <-> chosen key c) as Hch.
  { intros key c. apply selects_listed. }
  destruct (wrap_family_class _ _ _ _ (valid_listed names) Hclass)
    as ((h1 & Hrun1 & _ & Rk1 & Rp1) & (h2 & Hrun2 & _ & Rk2) & (h3 & Hrun3 & _ & Rp3)).
  split; [|split].
  - exists h1. eauto using rewritten_partitioned.
  - exists h2. eauto using rewritten_partitioned.
  - exists h3. eauto using rewritten_partitioned.
Qed.

Lemma listed_selection_is_membership_witness :
  exists h',
    AsyncClass.wrapInstanceMethods (VRef 0) (AArray [VStr "bar"]) Example.store
    = (Ret (VRef 0), h')
    /\ partitioned Example.store h' 1 (fun key _ => In (VStr key) [VStr "bar"]).
Proof.
  apply (listed_selection_is_membership Example.store 0%nat 1%nat [VStr "bar"]
           store_is_class).
Defined.

(** *** C2 *)




(** *** C8 *)




(** *** C7 *)




(** *** C6 *)

(** C6: a generator member whose step sequence yields a promise fulfilled
    with [v1], then one fulfilled with [v2], and then returns [v3]: after
    [wrap], the member is an adapter whose call returns a promise that
    fulfils with [v3], and the driver calls the generator three times, to
    start it and to resume it twice, with [v1] and then with [v2]. *)
Theorem generator_adapter_resumes_with_each_value
  (h : heap) (klass p l : loc) (key : string) (f : loc) (c : code)
  (this : jsval) (args : list jsval) (v1 v2 v3 : jsval) (k1 k2 : resume -> gen)
  (Hclass : is_class h klass p)
  (Hsurface : l = klass \/ l = p)
  (Hmember : candidate h l key f c)
  (Hkind : ctor_name c = "GeneratorFunction")
  (Hcall : call c this args = Normal (RGen (GYield (YPromise (Fulfilled v1)) k1)))
  (Hfirst : k1 (RNext v1) = GYield (YPromise (Fulfilled v2)) k2)
  (Hsecond : k2 (RNext v2) = GReturn (Plain v3)) :
  exists h' a adapter,
    AsyncClass.wrap (VRef klass) (AVal VUndefined) h = (Ret (VRef klass), h')
    /\ getOwnPropertyDescriptor h' (VRef l) key = Some (Data (VRef a))
    /\ code_of h' (VRef a) = Some adapter
    /\ call adapter this args = Normal (RVal (Thenable (Fulfilled v3)))
    /\ Co.co (RGen (GYield (YPromise (Fulfilled v1)) k1))
       = ([Co.Started; Co.Resumed (RNext v1); Co.Resumed (RNext v2)], Fulfilled v3).
Proof.
  destruct (wrap_class (AVal VUndefined) _ _ _ (or_introl eq_refl) Hclass)
    as (h' & Hrun & _ & _ & Rk & Rp).
  assert (rewritten h h' l (AVal VUndefined)) as R by (destruct Hsurface as [->| ->]; auto).
  assert (selects (AVal VUndefined) key c = true) as Hs.
  { unfold selects. simpl. rewrite Hkind. simpl. apply orb_true_r. }
  destruct (rewritten_replaced _ _ _ _ _ _ _ R Hmember Hs) as (a & Hd & _ & Ha).
  assert (Co.co (RGen (GYield (YPromise (Fulfilled v1)) k1))
          = ([Co.Started; Co.Resumed (RNext v1); Co.Resumed (RNext v2)], Fulfilled v3))
    as Hco.
  { unfold Co.co, Co.drive. rewrite next_fulfilled, Hfirst, next_fulfilled, Hsecond.
    reflexivity. }
  destruct Hmember as [_ Hc].
  exists h', a, {| ctor_name := "Function"; call := Co.createPromise (code_of h (VRef f)) |}.
  split; [assumption|]. split; [assumption|]. split.
  { simpl. now rewrite Ha. }
  split; [|assumption].
  cbn [call]. rewrite Hc, (createPromise_normal _ _ _ _ Hcall). now rewrite Hco.
Qed.

Lemma generator_adapter_resumes_with_each_value_witness :
  exists h' a adapter,
    AsyncClass.wrap (VRef 0) (AVal VUndefined) Example.store = (Ret (VRef 0), h')
    /\ getOwnPropertyDescriptor h' (VRef 1) "load" = Some (Data (VRef a))
    /\ code_of h' (VRef a) = Some adapter
    /\ call adapter VNull [VNum 7] = Normal (RVal (Thenable (Fulfilled (VNum 15))))
    /\ Co.co (RGen (GYield (YPromise (Fulfilled (VNum 7))) Example.load_first))
       = ([Co.Started; Co.Resumed (RNext (VNum 7)); Co.Resumed (RNext (VNum 8))],
          Fulfilled (VNum 15)).
Proof.
  apply (generator_adapter_resumes_with_each_value Example.store 0%nat 1%nat 1%nat
           "load" 5%nat
           {| ctor_name := "GeneratorFunction"; call := Example.load_body |}
           VNull [VNum 7] (VNum 7) (VNum 8) (VNum 15)
           Example.load_first (Example.load_second (VNum 7)) store_is_class).
  - now right.
  - split; reflexivity.
  - reflexivity.
  - reflexivity.
  - reflexivity.
  - reflexivity.
Defined.

(** *** C1 *)

(** C1 holds for generator members: whatever the generator raises, at
    once or when resumed, the call of the adapter returns a promise that
    rejects with it. *)
Lemma generator_member_fault_is_a_rejection
  (h : heap) (klass p l : loc) (key : string) (f : loc) (c : code)
  (this : jsval) (args : list jsval) (g : gen) (e : jsval) :
  is_class h klass p -> l = klass \/ l = p -> candidate h l key f c ->
  ctor_name c = "GeneratorFunction" ->
  call c this args = Normal (RGen g) -> Co.raises g e ->
  exists h' a adapter,
    AsyncClass.wrap (VRef klass) (AVal VUndefined) h = (Ret (VRef klass), h')
    /\ getOwnPropertyDescriptor h' (VRef l) key = Some (Data (VRef a))
    /\ code_of h' (VRef a) = Some adapter
    /\ call adapter this args = Normal (RVal (Thenable (Rejected e))).
Proof.
  intros Hclass Hsurface Hmember Hkind Hcall Hraises.
  destruct (wrap_class (AVal VUndefined) _ _ _ (or_introl eq_refl) Hclass)
    as (h' & Hrun & _ & _ & Rk & Rp).
  assert (rewritten h h' l (AVal VUndefined)) as R by (destruct Hsurface as [->| ->]; auto).
  assert (selects (AVal VUndefined) key c = true) as Hs.
  { unfold selects. simpl. rewrite Hkind. simpl. apply orb_true_r. }
  destruct (rewritten_replaced _ _ _ _ _ _ _ R Hmember Hs) as (a & Hd & _ & Ha).
  destruct Hmember as [_ Hc].
  exists h', a, {| ctor_name := "Function"; call := Co.createPromise (code_of h (VRef f)) |}.
  split; [assumption|]. split; [assumption|]. split.
  { simpl. now rewrite Ha. }
  cbn [call]. rewrite Hc. eapply generator_fault_rejects; eauto.
Qed.

(** A plain member selected by [wrap] whose body raises [e]: the call of
    the adapter that replaced it ends with [e] thrown. *)
Lemma plain_member_fault_escapes
  (h : heap) (klass p l : loc) (key : string) (f : loc) (c : code)
  (this : jsval) (args : list jsval) (e : jsval) :
  is_class h klass p -> l = klass \/ l = p -> candidate h l key f c ->
  endsWith key "Async" = true ->
  call c this args = Abrupt e ->
  exists h' a adapter,
    AsyncClass.wrap (VRef klass) (AVal VUndefined) h = (Ret (VRef klass), h')
    /\ getOwnPropertyDescriptor h' (VRef l) key = Some (Data (VRef a))
    /\ code_of h' (VRef a) = Some adapter
    /\ call adapter this args = Abrupt e.
Proof.
  intros Hclass Hsurface Hmember Hsuffix Hcall.
  destruct (wrap_class (AVal VUndefined) _ _ _ (or_introl eq_refl) Hclass)
    as (h' & Hrun & _ & _ & Rk & Rp).
  assert (rewritten h h' l (AVal VUndefined)) as R by (destruct Hsurface as [->| ->]; auto).
  assert (selects (AVal VUndefined) key c = true) as Hs.
  { unfold selects. simpl. now rewrite Hsuffix. }
  destruct (rewritten_replaced _ _ _ _ _ _ _ R Hmember Hs) as (a & Hd & _ & Ha).
  destruct Hmember as [_ Hc].
  exists h', a, {| ctor_name := "Function"; call := Co.createPromise (code_of h (VRef f)) |}.
  split; [assumption|]. split; [assumption|]. split.
  { simpl. now rewrite Ha. }
  cbn [call]. rewrite Hc. now apply createPromise_abrupt.
Qed.

(** C1 fails for plain members.  [fooAsync() { throw E; }] is selected by
    its suffix and replaced by its adapter; the call of the adapter ends
    with [E] thrown at the call site, and no promise is returned. *)
Theorem plain_member_fault_is_thrown :
  exists h' a adapter,
    AsyncClass.wrap (VRef 0) (AVal VUndefined) Example.store = (Ret (VRef 0), h')
    /\ getOwnPropertyDescriptor Example.store (VRef 1) "fooAsync" = Some (Data (VRef 4))
    /\ (ctor_name <$> code_of Example.store (VRef 4)) = Some "Function"
    /\ getOwnPropertyDescriptor h' (VRef 1) "fooAsync" = Some (Data (VRef a))
    /\ h' !! a = Some (Co.adapter Example.store (VRef 4))
    /\ code_of h' (VRef a) = Some adapter
    /\ call adapter VNull [] = Abrupt Example.E.
Proof.
  eexists _, _, _. split; [vm_compute; reflexivity|].
  repeat split; vm_compute; reflexivity.
Qed.

(* ===================================================================== *)
(** ** Further properties of the functions of index.js *)
(* ===================================================================== *)

(** *** Filters that amount to none *)

Lemma wrapFunction_falsy target methodNames key h :
  truthy_arg methodNames = false ->
  AsyncClass.wrapFunction target methodNames key h
  = AsyncClass.wrapFunction target (AVal VUndefined) key h.
Proof. intros Hf. unfold AsyncClass.wrapFunction. now rewrite Hf. Qed.

Lemma wrapFunctions_falsy target methodNames h :
  truthy_arg methodNames = false ->
  AsyncClass.wrapFunctions target methodNames h
  = AsyncClass.wrapFunctions target (AVal VUndefined) h.
Proof.
  intros Hf. unfold AsyncClass.wrapFunctions, bind.
  destruct (AsyncClass._actualMethodKeys target h) as [[ks|e] h1]; [|reflexivity].
  apply forEach_ext. intros. now apply wrapFunction_falsy.
Qed.

(** X3: a falsy [methodNames] (null, false, 0, NaN, the empty string) is
    the same call as one without [methodNames]: on every target and store
    the three functions return the same result and leave the same store. *)
Theorem falsy_filter_is_no_filter (target : jsval) (methodNames : argument) (h : heap)
  (Hfalsy : truthy_arg methodNames = false) :
  AsyncClass.wrap target methodNames h = AsyncClass.wrap target (AVal VUndefined) h
  /\ AsyncClass.wrapStaticMethods target methodNames h
     = AsyncClass.wrapStaticMethods target (AVal VUndefined) h
  /\ AsyncClass.wrapInstanceMethods target methodNames h
     = AsyncClass.wrapInstanceMethods target (AVal VUndefined) h.
Proof.
  assert (forall h0, AsyncClass.validateMethodNames methodNames h0
                     = AsyncClass.validateMethodNames (AVal VUndefined) h0) as Hv.
  { intros h0. unfold AsyncClass.validateMethodNames. now rewrite Hfalsy. }
  assert (forall h0, AsyncClass.wrapStaticMethods target methodNames h0
                     = AsyncClass.wrapStaticMethods target (AVal VUndefined) h0) as Hs.
  { intros h0. unfold AsyncClass.wrapStaticMethods, bind. rewrite Hv.
    destruct (AsyncClass.validateMethodNames (AVal VUndefined) h0) as [[[]|e] h1];
      [|reflexivity].
    now rewrite (wrapFunctions_falsy _ _ _ Hfalsy). }
  assert (forall h0, AsyncClass.wrapInstanceMethods target methodNames h0
                     = AsyncClass.wrapInstanceMethods target (AVal VUndefined) h0) as Hi.
  { intros h0. unfold AsyncClass.wrapInstanceMethods, bind. rewrite Hv.
    destruct (AsyncClass.validateMethodNames (AVal VUndefined) h0) as [[[]|e] h1];
      [|reflexivity].
    destruct (Get target "prototype" h1) as [[v|e] h2]; [|reflexivity].
    now rewrite (wrapFunctions_falsy _ _ _ Hfalsy). }
  split; [|split; auto].
  unfold AsyncClass.wrap, bind. rewrite Hv.
  destruct (AsyncClass.validateMethodNames (AVal VUndefined) h) as [[[]|e] h1];
    [|reflexivity].
  rewrite Hs. destruct (AsyncClass.wrapStaticMethods target (AVal VUndefined) h1)
    as [[v|e] h2]; [|reflexivity].
  now rewrite Hi.
Qed.

Lemma falsy_filter_is_no_filter_witness :
  AsyncClass.wrap (VRef 0) (AVal (VNum 0)) Example.store
  = AsyncClass.wrap (VRef 0) (AVal VUndefined) Example.store.
Proof.
  apply (falsy_filter_is_no_filter (VRef 0) (AVal (VNum 0)) Example.store).
  reflexivity.
Defined.

(** *** [wrap] as a composition *)

Lemma validateMethodNames_cases methodNames h :
  AsyncClass.validateMethodNames methodNames h = (Ret tt, h)
  \/ AsyncClass.validateMethodNames methodNames h
     = (Thrown AsyncClass.InvalidArgument, h).
Proof.
  unfold AsyncClass.validateMethodNames.
  destruct (truthy_arg methodNames && negb (instanceof_Array methodNames)); auto.
Qed.

(** X4: [wrap] is [wrapStaticMethods] followed by [wrapInstanceMethods]:
    on every target, filter and store it gives the result and the store
    that the two calls give one after the other, errors included. *)
Theorem wrap_is_static_then_instance (klass : jsval) (methodNames : argument) (h : heap) :
  AsyncClass.wrap klass methodNames h
  = bind (AsyncClass.wrapStaticMethods klass methodNames)
      (fun _ => AsyncClass.wrapInstanceMethods klass methodNames) h.
Proof.
  assert (forall h0 r h1,
            AsyncClass.wrapInstanceMethods klass methodNames h0 = (Ret r, h1) ->
            r = klass) as Hret.
  { intros h0 r h1. unfold AsyncClass.wrapInstanceMethods, bind, ret.
    destruct (AsyncClass.validateMethodNames methodNames h0) as [[[]|e] h2];
      [|discriminate].
    destruct (Get klass "prototype" h2) as [[v|e] h3]; [|discriminate].
    destruct (AsyncClass.wrapFunctions v methodNames h3) as [[[]|e] h4];
      [|discriminate].
    congruence. }
  unfold AsyncClass.wrap, bind.
  destruct (validateMethodNames_cases methodNames h) as [Hv|Hv]; rewrite Hv.
  - destruct (AsyncClass.wrapStaticMethods klass methodNames h) as [[v|e] h1];
      [|reflexivity].
    destruct (AsyncClass.wrapInstanceMethods klass methodNames h1) as [[r|e] h2] eqn:Hi;
      [|reflexivity].
    unfold ret. now rewrite (Hret _ _ _ Hi).
  - unfold AsyncClass.wrapStaticMethods, bind. now rewrite Hv.
Qed.

(** *** Nothing to wrap *)

Lemma forEach_unselected methodNames h l o ks :
  valid methodNames -> h !! l = Some o -> candidates h o ks ->
  (forall key, In key ks -> selected h o methodNames key = false) ->
  forEach ks (AsyncClass.wrapFunction (VRef l) methodNames) h = (Ret tt, h).
Proof.
  intros Hv Hl. induction ks as [|k ks IH]; intros Hc Hn; [reflexivity|].
  destruct (Hc k (or_introl eq_refl)) as (f & c & Hk & Hfc).
  cbn [forEach]. unfold bind.
  rewrite (wrapFunction_candidate _ _ _ _ _ _ _ Hv Hl Hk Hfc).
  assert (selects methodNames k c = false) as ->.
  { specialize (Hn k (or_introl eq_refl)). unfold selected in Hn.
    now rewrite Hk, Hfc in Hn. }
  apply IH.
  - intros key Hin. apply Hc. now right.
  - intros key Hin. apply Hn. now right.
Qed.

Lemma wrapFunctions_unselected methodNames h l o :
  valid methodNames -> h !! l = Some o ->
  (forall key, selected h o methodNames key = false) ->
  AsyncClass.wrapFunctions (VRef l) methodNames h = (Ret tt, h).
Proof.
  intros Hv Hl Hn. unfold AsyncClass.wrapFunctions, bind.
  rewrite (actualMethodKeys_object _ _ _ Hl).
  apply (forEach_unselected _ _ _ o); auto.
  intros key Hin. now apply (actualMethodKeys_candidate _ _ _ _ Hl).
Qed.

Lemma unselected_when h l o methodNames :
  h !! l = Some o ->
  (forall key f c, candidate h l key f c -> selects methodNames key c = false) ->
  forall key, selected h o methodNames key = false.
Proof.
  intros Hl Hn key. destruct (selected h o methodNames key) eqn:Hs; [|reflexivity].
  destruct (selected_candidate _ _ _ _ Hs) as (f & c & Hk & Hc & Hsc).
  rewrite (Hn key f c) in Hsc; [discriminate|].
  split; [|assumption]. unfold getOwnPropertyDescriptor. now rewrite Hl.
Qed.

(** X2: when the filter selects no member, the call is a no-op and raises
    nothing.  With a list: when no candidate of the class or of its
    prototype is named in it (names of members that do not exist, or that
    are not functions, are ignored without an error).  Without a list:
    when no candidate has the [Async] suffix or is a generator function.
    In both cases the three functions return the class and the store is
    exactly the one before the call. *)
Theorem nothing_selected_is_a_no_op (h : heap) (klass p : loc) (K P : object)
  (HK : h !! klass = Some K) (HP : h !! p = Some P)
  (Hproto : lookup_own "prototype" (own K) = Some (Data (VRef p))) :
  let untouched methodNames :=
    AsyncClass.wrap (VRef klass) methodNames h = (Ret (VRef klass), h)
    /\ AsyncClass.wrapStaticMethods (VRef klass) methodNames h = (Ret (VRef klass), h)
    /\ AsyncClass.wrapInstanceMethods (VRef klass) methodNames h = (Ret (VRef klass), h) in
  (forall names,
      (forall l key f c, l = klass \/ l = p -> candidate h l key f c ->
                         ~ In (VStr key) names) ->
      untouched (AArray names))
  /\ (forall methodNames,
         truthy_arg methodNames = false ->
         (forall l key f c, l = klass \/ l = p -> candidate h l key f c ->
                            endsWith key "Async" = false
                            /\ ctor_name c <> "GeneratorFunction") ->
         untouched methodNames).
Proof.
  intros untouched.
  assert (forall methodNames,
            valid methodNames ->
            (forall l key f c, l = klass \/ l = p -> candidate h l key f c ->
                               selects methodNames key c = false) ->
            untouched methodNames) as Hmain.
  { intros methodNames Hv Hn.
    assert (AsyncClass.wrapFunctions (VRef klass) methodNames h = (Ret tt, h)) as Hk.
    { apply (wrapFunctions_unselected _ _ _ K Hv HK).
      apply (unselected_when _ _ _ _ HK). intros key f c. apply Hn. now left. }
    assert (AsyncClass.wrapFunctions (VRef p) methodNames h = (Ret tt, h)) as Hp.
    { apply (wrapFunctions_unselected _ _ _ P Hv HP).
      apply (unselected_when _ _ _ _ HP). intros key f c. apply Hn. now right. }
    assert (AsyncClass.wrapStaticMethods (VRef klass) methodNames h
            = (Ret (VRef klass), h)) as Hs.
    { unfold AsyncClass.wrapStaticMethods, bind.
      now rewrite (validateMethodNames_valid _ _ Hv), Hk. }
    assert (AsyncClass.wrapInstanceMethods (VRef klass) methodNames h
            = (Ret (VRef klass), h)) as Hi.
    { unfold AsyncClass.wrapInstanceMethods, bind.
      now rewrite (validateMethodNames_valid _ _ Hv),
        (Get_own_data _ _ _ _ _ HK Hproto), Hp. }
    split; [|split; assumption].
    unfold AsyncClass.wrap, bind.
    now rewrite (validateMethodNames_valid _ _ Hv), Hs, Hi. }
  split.
  - intros names Hn. apply Hmain; [apply valid_listed|].
    intros l key f c Hl Hc.
    destruct (selects (AArray names) key c) eqn:Hs; [|reflexivity].
    apply selects_listed in Hs. exfalso. eapply Hn; eauto.
  - intros methodNames Hf Hn. apply Hmain; [now apply valid_unfiltered|].
    intros l key f c Hl Hc. rewrite (selects_unfiltered _ _ _ Hf).
    destruct (Hn l key f c Hl Hc) as [-> Hg].
    apply String.eqb_neq in Hg. now rewrite Hg.
Qed.

Lemma nothing_selected_is_a_no_op_witness :
  AsyncClass.wrap (VRef 0) (AArray [VStr "missing"; VStr "baz"; VNum 3]) Example.store
  = (Ret (VRef 0), Example.store).
Proof.
  destruct (nothing_selected_is_a_no_op Example.store 0%nat 1%nat _ _
              eq_refl eq_refl eq_refl) as [Hlist _].
  apply Hlist.
  intros l key f c [->| ->] [Hd Hc] [H|[H|[H|[]]]]; try discriminate;
    injection H as <-; vm_compute in Hd; discriminate.
Defined.

(** *** A target without a prototype *)

Lemma Get_missing h l o key :
  h !! l = Some o -> lookup_own key (own o) = None -> proto o = None ->
  Get (VRef l) key h = (Ret VUndefined, h).
Proof.
  intros Hl Hk Hp. unfold Get. destruct (length h); simpl; now rewrite Hl, Hk, Hp.
Qed.

(** X5: a target that has no [prototype] property, own or inherited (a
    plain object, an arrow function): [wrapInstanceMethods] and
    [getInstanceMethods] end in the TypeError of
    [Object.getOwnPropertyNames(undefined)] and change no object; [wrap]
    ends in the same error, but only after [wrapStaticMethods] has done
    its work: the store it leaves is the one [wrapStaticMethods] leaves,
    static members wrapped. *)
Theorem missing_prototype_fails_after_statics
  (h : heap) (klass : loc) (K : object) (methodNames : argument)
  (Hvalid : valid methodNames)
  (HK : h !! klass = Some K) (Hkeys : NoDup (map fst (own K)))
  (Hmissing : lookup_own "prototype" (own K) = None) (Hroot : proto K = None) :
  let error := TypeError "Cannot convert undefined or null to object" in
  AsyncClass.wrapInstanceMethods (VRef klass) methodNames h = (Thrown error, h)
  /\ (exists h',
         AsyncClass.getInstanceMethods (VRef klass) h = (Thrown error, h')
         /\ unchanged h h')
  /\ (exists h1,
         AsyncClass.wrapStaticMethods (VRef klass) methodNames h
         = (Ret (VRef klass), h1)
         /\ rewritten h h1 klass methodNames
         /\ AsyncClass.wrap (VRef klass) methodNames h = (Thrown error, h1)).
Proof.
  intros error.
  assert (forall h0 K0, h0 !! klass = Some K0 ->
            map fst (own K0) = map fst (own K) -> proto K0 = proto K ->
            AsyncClass.wrapInstanceMethods (VRef klass) methodNames h0
            = (Thrown error, h0)) as Hinst.
  { intros h0 K0 HK0 Hsame Hp0.
    unfold AsyncClass.wrapInstanceMethods, bind.
    rewrite (validateMethodNames_valid _ _ Hvalid).
    rewrite (Get_missing _ _ _ _ HK0); [reflexivity| |congruence].
    apply lookup_own_None. rewrite Hsame. now apply lookup_own_None. }
  split; [now apply (Hinst h K)|]. split.
  - exists (h ++ [{| own := []; proto := None; callable := None |}]). split.
    + unfold AsyncClass.getInstanceMethods, bind.
      now rewrite (Get_missing _ _ _ _ HK Hmissing Hroot).
    + intros l o Hl. rewrite lookup_app_l; [assumption|].
      eapply lookup_lt_Some; eauto.
  - destruct (wrapStaticMethods_object _ _ _ _ Hvalid HK Hkeys)
      as (h1 & Hrun & _ & _ & R).
    exists h1. split; [assumption|]. split; [assumption|].
    pose proof R as (K0 & K1 & HK0 & HK1 & Hsame & Hp & _).
    assert (K0 = K) as -> by congruence.
    unfold AsyncClass.wrap, bind.
    rewrite (validateMethodNames_valid _ _ Hvalid), Hrun.
    now rewrite (Hinst h1 K1 HK1 Hsame Hp).
Qed.

Lemma missing_prototype_fails_after_statics_witness :
  exists h1,
    AsyncClass.wrapStaticMethods (VRef 7) (AVal VUndefined) Example.store
    = (Ret (VRef 7), h1)
    /\ rewritten Example.store h1 7 (AVal VUndefined)
    /\ AsyncClass.wrap (VRef 7) (AVal VUndefined) Example.store
       = (Thrown (TypeError "Cannot convert undefined or null to object"), h1).
Proof.
  destruct (missing_prototype_fails_after_statics Example.store 7%nat _
              (AVal VUndefined) (or_introl eq_refl) eq_refl) as (_ & _ & H).
  - apply (bool_decide_unpack _). vm_compute. reflexivity.
  - reflexivity.
  - reflexivity.
  - exact H.
Defined.

(** *** The class after the call *)

Lemma In_lookup_own key p ps :
  NoDup (map fst ps) -> In (key, p) ps -> lookup_own key ps = Some p.
Proof.
  induction ps as [|[k q] ps IH]; simpl; intros Hnd Hin; [destruct Hin|].
  apply NoDup_cons in Hnd as [Hk Hnd]. rewrite list_elem_of_In in Hk.
  destruct Hin as [[= -> ->]|Hin].
  - now rewrite String.eqb_refl.
  - destruct (String.eqb_spec k key) as [->|Hne]; [|auto].
    exfalso. apply Hk. apply (in_map fst) in Hin. exact Hin.
Qed.

Lemma refers_inside_later h h' kp :
  (length h <= length h')%nat -> refers_inside h kp -> refers_inside h' kp.
Proof.
  unfold refers_inside. destruct (snd kp) as [[]|]; auto. lia.
Qed.

Lemma well_formed_later h h' o :
  (length h <= length h')%nat -> well_formed h o -> well_formed h' o.
Proof.
  intros Hlen [Hnd Hin]. split; [assumption|].
  eapply List.Forall_impl; [|exact Hin]. intros kp. now apply refers_inside_later.
Qed.

Lemma rewritten_well_formed h h' l o o' methodNames :
  rewritten h h' l methodNames -> (length h <= length h')%nat ->
  h !! l = Some o -> h' !! l = Some o' ->
  well_formed h o -> well_formed h' o'.
Proof.
  intros (o0 & o0' & Hl0 & Hl0' & Hkeys & _ & _ & Hall) Hlen Hl Hl' [Hnd Hin].
  assert (o0 = o) as -> by congruence. assert (o0' = o') as -> by congruence.
  assert (NoDup (map fst (own o'))) as Hnd' by (now rewrite Hkeys).
  split; [assumption|].
  apply List.Forall_forall. intros [k q] Hq.
  pose proof (In_lookup_own _ _ _ Hnd' Hq) as Hk'.
  specialize (Hall k). destruct (selected h o methodNames k).
  - destruct Hall as (f & a & _ & Hka & _ & Had).
    assert (q = Data (VRef a)) as -> by congruence.
    unfold refers_inside. simpl. eapply lookup_lt_Some; eauto.
  - rewrite Hk' in Hall. symmetry in Hall.
    rewrite List.Forall_forall in Hin.
    apply (refers_inside_later h); [assumption|].
    apply Hin. now apply lookup_own_In.
Qed.

Lemma rewritten_same_shape h h' l methodNames :
  rewritten h h' l methodNames -> same_shape h h' l.
Proof.
  intros (o & o' & Hl & Hl' & Hkeys & Hp & Hc & _). exists o, o'. auto.
Qed.

Lemma same_object_same_shape h h' l o :
  h !! l = Some o -> h' !! l = Some o -> same_shape h h' l.
Proof. intros Hl Hl'. exists o, o. auto. Qed.

(** A class is still one, with the same prototype, in a store where each
    of its two surfaces was rewritten or left alone. *)
Lemma is_class_after h h' klass p methodNames :
  is_class h klass p -> (length h <= length h')%nat ->
  rewritten h h' klass methodNames \/ h' !! klass = h !! klass ->
  rewritten h h' p methodNames \/ h' !! p = h !! p ->
  is_class h' klass p.
Proof.
  intros (K & P & HK & HP & Hproto & HcK & HcP & HwK & HwP) Hlen Hk Hp.
  assert (exists K', h' !! klass = Some K' /\ callable K' = callable K
                     /\ lookup_own "prototype" (own K') = Some (Data (VRef p))
                     /\ well_formed h' K') as (K' & HK' & HcK' & Hproto' & HwK').
  { destruct Hk as [R|Hsame].
    - pose proof R as (K0 & K' & HK0 & HK' & _ & _ & Hc & Hall).
      assert (K0 = K) as -> by congruence.
      exists K'. split; [assumption|]. split; [assumption|]. split.
      + specialize (Hall "prototype"). unfold selected in Hall.
        rewrite Hproto in Hall. simpl in Hall. rewrite HP, HcP in Hall. congruence.
      + eapply rewritten_well_formed; eauto.
    - exists K. rewrite Hsame. eauto using well_formed_later. }
  assert (exists P', h' !! p = Some P' /\ callable P' = callable P
                     /\ well_formed h' P') as (P' & HP' & HcP' & HwP').
  { destruct Hp as [R|Hsame].
    - pose proof R as (P0 & P' & HP0 & HP' & _ & _ & Hc & _).
      assert (P0 = P) as -> by congruence.
      exists P'. split; [assumption|]. split; [assumption|].
      eapply rewritten_well_formed; eauto.
    - exists P. rewrite Hsame. eauto using well_formed_later. }
  exists K', P'. repeat (split; [assumption|]).
  split; [now rewrite HcK'|]. split; [congruence|]. auto.
Qed.

(** X1: the [wrap] family keeps the shape of a class.  After [wrap],
    [wrapStaticMethods] or [wrapInstanceMethods] with a filter that passes
    the validation, the class and its prototype have the keys they had, in
    the order they had them, and the same prototype links; the class is
    still a class with the same prototype object: no property is added,
    removed or moved, only values are replaced in place. *)
Theorem wrap_family_keeps_the_shape
  (h : heap) (klass p : loc) (methodNames : argument)
  (Hclass : is_class h klass p) (Hvalid : valid methodNames) :
  forall run,
    run = AsyncClass.wrap \/ run = AsyncClass.wrapStaticMethods
    \/ run = AsyncClass.wrapInstanceMethods ->
    exists h',
      run (VRef klass) methodNames h = (Ret (VRef klass), h')
      /\ is_class h' klass p
      /\ same_shape h h' klass /\ same_shape h h' p.
Proof.
  intros run Hrun.
  pose proof (is_class_distinct _ _ _ Hclass) as Hne.
  pose proof Hclass as (K & P & HK & HP & _).
  destruct (wrap_family_class _ _ _ _ Hvalid Hclass)
    as ((h1 & Hrun1 & Hf1 & Rk1 & Rp1) & (h2 & Hrun2 & Hf2 & Rk2)
        & (h3 & Hrun3 & Hf3 & Rp3)).
  destruct Hrun as [->|[->| ->]].
  - exists h1. split; [assumption|]. split.
    + apply (is_class_after h h1 klass p methodNames); auto. apply Hf1.
    + eauto using rewritten_same_shape.
  - assert (h2 !! p = Some P) as HP2.
    { eapply frame_same; eauto. simpl. intuition. }
    exists h2. split; [assumption|]. split.
    + apply (is_class_after h h2 klass p methodNames); auto; [apply Hf2|].
      right. congruence.
    + eauto using rewritten_same_shape, same_object_same_shape.
  - assert (h3 !! klass = Some K) as HK3.
    { eapply frame_same; eauto. simpl. intuition. }
    exists h3. split; [assumption|]. split.
    + apply (is_class_after h h3 klass p methodNames); auto; [apply Hf3|].
      right. congruence.
    + eauto using rewritten_same_shape, same_object_same_shape.
Qed.

Lemma wrap_family_keeps_the_shape_witness :
  exists h',
    AsyncClass.wrap (VRef 0) (AVal VUndefined) Example.store = (Ret (VRef 0), h')
    /\ is_class h' 0 1
    /\ same_shape Example.store h' 0 /\ same_shape Example.store h' 1.
Proof.
  apply (wrap_family_keeps_the_shape Example.store 0%nat 1%nat (AVal VUndefined)
           store_is_class (or_introl eq_refl)).
  now left.
Defined.

(** *** Wrapping twice *)

Lemma rewritten_kept_candidate h h' l methodNames key f c :
  rewritten h h' l methodNames -> candidate h l key f c ->
  selects methodNames key c = false -> kept h h' l key.
Proof.
  intros R Hcand Hs. pose proof R as (o & _ & Hl & _).
  apply (rewritten_kept _ _ _ _ _ _ R Hl).
  now rewrite (candidate_selected _ _ _ _ _ _ _ Hl Hcand).
Qed.

Lemma adapter_is_candidate h h' l key a f :
  getOwnPropertyDescriptor h' (VRef l) key = Some (Data (VRef a)) ->
  fresh_adapter h h' a f ->
  candidate h' l key a
    {| ctor_name := "Function"; call := Co.createPromise (code_of h (VRef f)) |}.
Proof.
  intros Hd [_ Ha]. split; [assumption|]. simpl. now rewrite Ha.
Qed.

(** X6: no marker records that a member was wrapped, and an adapter is an
    ordinary function, so a second [wrap] without a filter selects by name
    alone: a member whose name ends with [Async] is wrapped again, the
    adapter of the first call being replaced by a fresh adapter of that
    adapter; every other member, a generator member adapted by the first
    call included, is left as the first call left it. *)
Theorem second_wrap_rewraps_suffix_members (h : heap) (klass p : loc)
  (Hclass : is_class h klass p) :
  exists h1 h2,
    AsyncClass.wrap (VRef klass) (AVal VUndefined) h = (Ret (VRef klass), h1)
    /\ AsyncClass.wrap (VRef klass) (AVal VUndefined) h1 = (Ret (VRef klass), h2)
    /\ forall l key f c,
        l = klass \/ l = p -> candidate h l key f c ->
        (endsWith key "Async" = true ->
           exists a,
             getOwnPropertyDescriptor h1 (VRef l) key = Some (Data (VRef a))
             /\ fresh_adapter h h1 a f /\ replaced h1 h2 l key a)
        /\ (endsWith key "Async" = false -> kept h1 h2 l key).
Proof.
  set (absent := AVal VUndefined).
  assert (valid absent) as Hv by now left.
  destruct (wrap_class absent _ _ _ Hv Hclass)
    as (h1 & Hrun1 & He1 & Hf1 & Rk1 & Rp1).
  assert (is_class h1 klass p) as Hclass1.
  { apply (is_class_after h h1 klass p absent); auto. apply Hf1. }
  destruct (wrap_class absent _ _ _ Hv Hclass1)
    as (h2 & Hrun2 & _ & _ & Rk2 & Rp2).
  exists h1, h2. split; [assumption|]. split; [assumption|].
  intros l key f c Hl Hcand.
  assert (rewritten h h1 l absent /\ rewritten h1 h2 l absent) as [R1 R2]
    by (destruct Hl as [->| ->]; auto).
  assert (selects absent key c
          = endsWith key "Async" || String.eqb (ctor_name c) "GeneratorFunction")
    as Hsel by reflexivity.
  split.
  - intros Hsuffix.
    destruct (rewritten_replaced _ _ _ _ _ _ _ R1 Hcand) as (a & Hd & Hfresh).
    { now rewrite Hsel, Hsuffix. }
    exists a. split; [assumption|]. split; [assumption|].
    eapply rewritten_replaced; eauto using adapter_is_candidate.
    unfold selects. simpl. now rewrite Hsuffix.
  - intros Hsuffix.
    destruct (String.eqb (ctor_name c) "GeneratorFunction") eqn:Hgen.
    + destruct (rewritten_replaced _ _ _ _ _ _ _ R1 Hcand) as (a & Hd & Hfresh).
      { rewrite Hsel. apply orb_true_r. }
      eapply rewritten_kept_candidate; eauto using adapter_is_candidate.
      unfold selects. simpl. now rewrite Hsuffix.
    + assert (kept h h1 l key) as Hkept.
      { eapply rewritten_kept_candidate; eauto. now rewrite Hsel, Hsuffix. }
      destruct Hcand as [Hd Hc].
      eapply (rewritten_kept_candidate _ _ _ _ _ f c); eauto.
      * split; [congruence|]. eapply extends_code_of; eauto.
      * now rewrite Hsel, Hsuffix.
Qed.

Lemma second_wrap_rewraps_suffix_members_witness :
  exists h1 h2,
    AsyncClass.wrap (VRef 0) (AVal VUndefined) Example.store = (Ret (VRef 0), h1)
    /\ AsyncClass.wrap (VRef 0) (AVal VUndefined) h1 = (Ret (VRef 0), h2)
    /\ forall l key f c,
        l = 0%nat \/ l = 1%nat -> candidate Example.store l key f c ->
        (endsWith key "Async" = true ->
           exists a,
             getOwnPropertyDescriptor h1 (VRef l) key = Some (Data (VRef a))
             /\ fresh_adapter Example.store h1 a f /\ replaced h1 h2 l key a)
        /\ (endsWith key "Async" = false -> kept h1 h2 l key).
Proof.
  apply (second_wrap_rewraps_suffix_members Example.store 0%nat 1%nat store_is_class).
Defined.

(** *** The call of an adapter *)

(** X10: the call of the adapter that replaced a selected member is the
    call of the member with the same receiver and arguments, its result
    handed to [co]: when a plain member returns a primitive value or an
    [Error] instance the adapter returns a promise fulfilled with it, and
    when it returns a promise the adapter returns a promise that settles
    like it. *)
Theorem adapter_forwards_the_return
  (h : heap) (klass p l : loc) (methodNames : argument)
  (key : string) (f : loc) (c : code)
  (this : jsval) (args : list jsval) (value : retval)
  (Hclass : is_class h klass p) (Hvalid : valid methodNames)
  (Hsurface : l = klass \/ l = p)
  (Hmember : candidate h l key f c)
  (Hselected : selects methodNames key c = true)
  (Hcall : call c this args = Normal (RVal value))
  (Hvalue : no_reference value) :
  exists h' a adapter,
    AsyncClass.wrap (VRef klass) methodNames h = (Ret (VRef klass), h')
    /\ getOwnPropertyDescriptor h' (VRef l) key = Some (Data (VRef a))
    /\ code_of h' (VRef a) = Some adapter
    /\ call adapter this args
       = Normal (RVal (Thenable (match value with
                                 | Plain v => Fulfilled v
                                 | Thenable state => state
                                 end))).
Proof.
  destruct (wrap_class methodNames _ _ _ Hvalid Hclass)
    as (h' & Hrun & _ & _ & Rk & Rp).
  assert (rewritten h h' l methodNames) as R by (destruct Hsurface as [->| ->]; auto).
  destruct (rewritten_replaced _ _ _ _ _ _ _ R Hmember Hselected) as (a & Hd & _ & Ha).
  destruct Hmember as [_ Hc].
  exists h', a,
    {| ctor_name := "Function"; call := Co.createPromise (code_of h (VRef f)) |}.
  split; [assumption|]. split; [assumption|]. split.
  { simpl. now rewrite Ha. }
  cbn [call]. rewrite Hc, (createPromise_normal _ _ _ _ Hcall).
  now destruct value.
Qed.

Lemma adapter_forwards_the_return_witness :
  exists h' a adapter,
    AsyncClass.wrap (VRef 0) (AVal VUndefined) Example.store = (Ret (VRef 0), h')
    /\ getOwnPropertyDescriptor h' (VRef 0) "computeAsync" = Some (Data (VRef a))
    /\ code_of h' (VRef a) = Some adapter
    /\ call adapter (VRef 0) [VNum 5]
       = Normal (RVal (Thenable (Fulfilled (VNum 10)))).
Proof.
  apply (adapter_forwards_the_return Example.store 0%nat 1%nat 0%nat (AVal VUndefined)
           "computeAsync" 2%nat
           {| ctor_name := "Function"; call := Example.computeAsync_body |}
           (VRef 0) [VNum 5] (Plain (VNum 10)) store_is_class (or_introl eq_refl)).
  - now left.
  - split; reflexivity.
  - reflexivity.
  - reflexivity.
  - intros l Hl. discriminate Hl.
Defined.

(** *** One adapter per selected member *)








(** *** Reading the members twice *)

Lemma is_class_unchanged h h' klass p :
  frame h h' [] -> is_class h klass p -> is_class h' klass p.
Proof.
  intros Hf Hclass. pose proof Hclass as (K & P & HK & HP & _).
  apply (is_class_after h h' klass p (AVal VUndefined)); auto; [apply Hf| |];
    right.
  - rewrite HK. now apply (frame_same _ _ _ _ _ Hf).
  - rewrite HP. now apply (frame_same _ _ _ _ _ Hf).
Qed.

(** The description of a mapping, read against an earlier store that the
    later one only extends. *)
Lemma gathered_earlier h h1 h2 l m o :
  gathered h1 h2 l m -> frame h h1 [] ->
  h !! l = Some o -> well_formed h o -> gathered h h2 l m.
Proof.
  intros (o1 & functions & Hl1 & Hm1 & Hm2 & Hcl & Hall) Hf Hl [_ Hin].
  pose proof (frame_nil_extends _ _ Hf) as He.
  assert (o1 = o) as ->.
  { rewrite (frame_same _ _ _ _ _ Hf (fun H => H) Hl) in Hl1. congruence. }
  exists o, functions. split; [assumption|]. split.
  { apply lookup_ge_None. apply lookup_ge_None in Hm1. destruct Hf. lia. }
  split; [assumption|]. split; [assumption|].
  intros key. specialize (Hall key).
  destruct (lookup_own key (own o)) as [[[]|]|] eqn:Hk; try assumption.
  rename l0 into f.
  rewrite List.Forall_forall in Hin.
  pose proof (Hin _ (lookup_own_In _ _ _ Hk)) as Hlt. unfold refers_inside in Hlt.
  simpl in Hlt.
  rewrite (extends_code_of_eq _ _ _ He Hlt) in Hall.
  destruct (code_of h (VRef f)) as [c|]; [|assumption].
  destruct (String.eqb key "constructor" || negb (adds_key key)); [assumption|].
  destruct (endsWith key "Async" || String.eqb (ctor_name c) "GeneratorFunction");
    [|assumption].
  destruct Hall as (a & Ham & Hka & Hnone & Had).
  exists a. split; [assumption|]. split; [assumption|]. split.
  - apply lookup_ge_None. apply lookup_ge_None in Hnone. destruct Hf. lia.
  - rewrite Had. f_equal. now apply extends_adapter.
Qed.

(** X8: on a target without a member named [__proto__],
    [getStaticMethods] and [getInstanceMethods] can be called again: the
    second call returns another new object, which answers the same
    description as the first (the same functions passed through, fresh
    adapters of the same functions for the matched members), and it leaves
    the first mapping and every older object as they were. *)
Theorem getters_can_be_repeated (h : heap) (klass p : loc)
  (Hclass : is_class h klass p) :
  forall run l,
    (run = AsyncClass.getStaticMethods /\ l = klass)
    \/ (run = AsyncClass.getInstanceMethods /\ l = p) ->
    no_proto_member h l ->
    exists h1 h2,
      run (VRef klass) h = (Ret (VRef (length h)), h1)
      /\ run (VRef klass) h1 = (Ret (VRef (length h1)), h2)
      /\ (length h < length h1)%nat
      /\ collected h h1 l (length h)
      /\ collected h h2 l (length h1)
      /\ unchanged h1 h2.
Proof.
  intros run l Hrun Hno.
  assert (forall h0, is_class h0 klass p ->
            exists h',
              run (VRef klass) h0 = (Ret (VRef (length h0)), h')
              /\ frame h0 h' [] /\ gathered h0 h' l (length h0)) as Hget.
  { intros h0 Hc0. destruct Hrun as [[-> ->]|[-> ->]].
    - now apply getStaticMethods_class with (p := p).
    - now apply getInstanceMethods_class. }
  destruct (Hget h Hclass) as (h1 & Hrun1 & Hf1 & Hcol1).
  pose proof (is_class_unchanged _ _ _ _ Hf1 Hclass) as Hclass1.
  destruct (Hget h1 Hclass1) as (h2 & Hrun2 & Hf2 & Hcol2).
  exists h1, h2. split; [assumption|]. split; [assumption|]. split.
  { destruct Hcol1 as (_ & functions & _ & _ & Hm & _).
    eapply lookup_lt_Some; eauto. }
  split; [now apply gathered_collected|]. split; [|now apply frame_unchanged].
  pose proof Hclass as (K & P & HK & HP & _ & _ & _ & HwK & HwP).
  apply gathered_collected; [|assumption].
  destruct Hrun as [[_ ->]|[_ ->]]; eapply gathered_earlier; eauto.
Qed.

Lemma getters_can_be_repeated_witness :
  exists h1 h2,
    AsyncClass.getInstanceMethods (VRef 0) Example.store = (Ret (VRef 9), h1)
    /\ AsyncClass.getInstanceMethods (VRef 0) h1 = (Ret (VRef (length h1)), h2)
    /\ (9 < length h1)%nat
    /\ collected Example.store h1 1 9
    /\ collected Example.store h2 1 (length h1)
    /\ unchanged h1 h2.
Proof.
  apply (getters_can_be_repeated Example.store 0%nat 1%nat store_is_class
           AsyncClass.getInstanceMethods 1%nat).
  - right. split; reflexivity.
  - intros f c [Hd _]. discriminate Hd.
Defined.

(** *** The order of the mapping *)

(** Without a member named [__proto__], the keys of the mapping are the
    keys [_actualMethodKeys] returns, [constructor] left out. *)
Lemma getAllFunctions_keys h l o :
  h !! l = Some o -> NoDup (map fst (own o)) -> no_proto_member h l ->
  exists h' functions keys,
    AsyncClass.getAllFunctions (VRef l) (AVal VUndefined) h
    = (Ret (VRef (length h)), h')
    /\ AsyncClass._actualMethodKeys (VRef l) h = (Ret keys, h)
    /\ h' !! length h = Some functions
    /\ map fst (own functions) = List.filter not_constructor keys.
Proof.
  intros Hl Hnd Hno.
  destruct (getAllFunctions_object _ _ _ Hl Hnd)
    as (h' & functions & Hrun & _ & _ & Hm' & Hkeys).
  exists h', functions. eexists.
  split; [exact Hrun|]. split; [apply (actualMethodKeys_object _ _ _ Hl)|].
  split; [exact Hm'|]. rewrite Hkeys.
  apply List.filter_ext_in. intros key Hin.
  unfold mapped_key, adds_key.
  destruct (String.eqb key "__proto__") eqn:Hp; [|apply andb_true_r].
  apply String.eqb_eq in Hp as ->. exfalso.
  apply (actualMethodKeys_candidate _ _ _ _ Hl) in Hin as (f & c & Hk & Hc).
  apply (Hno f c). split; [|assumption].
  unfold getOwnPropertyDescriptor. now rewrite Hl.
Qed.

(** X9: on a target without a member named [__proto__], the mapping of
    [getStaticMethods] and of [getInstanceMethods] lists the members in
    the order of the keys [_actualMethodKeys] returns, which is the order
    of the own properties of the target, with [constructor] left out. *)
Theorem mapping_follows_the_member_order (h : heap) (klass p : loc)
  (Hclass : is_class h klass p) :
  (no_proto_member h klass ->
   exists h' functions keys,
     AsyncClass.getStaticMethods (VRef klass) h = (Ret (VRef (length h)), h')
     /\ AsyncClass._actualMethodKeys (VRef klass) h = (Ret keys, h)
     /\ h' !! length h = Some functions
     /\ map fst (own functions) = List.filter not_constructor keys)
  /\ (no_proto_member h p ->
      exists h' functions keys,
        AsyncClass.getInstanceMethods (VRef klass) h = (Ret (VRef (length h)), h')
        /\ AsyncClass._actualMethodKeys (VRef p) h = (Ret keys, h)
        /\ h' !! length h = Some functions
        /\ map fst (own functions) = List.filter not_constructor keys).
Proof.
  destruct Hclass as (K & P & HK & HP & Hproto & _ & _ & [HndK _] & [HndP _]).
  split; intros Hno.
  - apply (getAllFunctions_keys _ _ _ HK HndK Hno).
  - destruct (getAllFunctions_keys _ _ _ HP HndP Hno)
      as (h' & functions & keys & Hrun & Hrest).
    exists h', functions, keys. split; [|assumption].
    unfold AsyncClass.getInstanceMethods, bind.
    now rewrite (Get_own_data _ _ _ _ _ HK Hproto).
Qed.

Lemma mapping_follows_the_member_order_witness :
  exists h' functions keys,
    AsyncClass.getInstanceMethods (VRef 0) Example.store = (Ret (VRef 9), h')
    /\ AsyncClass._actualMethodKeys (VRef 1) Example.store = (Ret keys, Example.store)
    /\ h' !! 9%nat = Some functions
    /\ map fst (own functions) = List.filter not_constructor keys.
Proof.
  apply (mapping_follows_the_member_order Example.store 0%nat 1%nat store_is_class).
  intros f c [Hd _]. discriminate Hd.
Defined.
